(** * notion-html-to-anki-csv: the converter, embedded and verified

    A shallow embedding of [src/converter.py].  Python [str] values are
    lists of characters; a character is a code point below 256 (the
    Latin-1 range), held as [ascii].  The BeautifulSoup document is a tree
    of element and text nodes; each element carries the identity of the
    Python object that represents it, because [convert_file] keeps
    references to rows and cells while [sanitize_inline_html] rewrites the
    tree under them. *)

From Stdlib Require Import Ascii String.
From Stdlib Require Import List Bool Arith Lia.
Set Warnings "-register-all".
Import ListNotations.

Definition str := list ascii.
Coercion list_ascii_of_string : string >-> list.
Open Scope string_scope.
Open Scope list_scope.
Open Scope nat_scope.

(** ** Python string primitives *)

Fixpoint str_eqb (a b : str) : bool :=
  match a, b with
  | [], [] => true
  | x :: a', y :: b' => Ascii.eqb x y && str_eqb a' b'
  | _, _ => false
  end.

(** [str.isspace] on one character of the Latin-1 range: U+0009..U+000D,
    U+001C..U+0020, U+0085 and U+00A0.  The regular expression class [\s]
    of a [str] pattern is the same set. *)
Definition py_isspace (c : ascii) : bool :=
  let n := nat_of_ascii c in
  ((9 <=? n) && (n <=? 13)) || ((28 <=? n) && (n <=? 32))
  || (n =? 133) || (n =? 160).

Fixpoint dropwhile {A} (p : A -> bool) (l : list A) : list A :=
  match l with
  | [] => []
  | x :: l' => if p x then dropwhile p l' else l
  end.

Fixpoint takewhile {A} (p : A -> bool) (l : list A) : list A :=
  match l with
  | [] => []
  | x :: l' => if p x then x :: takewhile p l' else []
  end.

Definition lstrip_by (p : ascii -> bool) (s : str) : str := dropwhile p s.
Definition rstrip_by (p : ascii -> bool) (s : str) : str :=
  rev (dropwhile p (rev s)).
Definition strip_by (p : ascii -> bool) (s : str) : str :=
  rstrip_by p (lstrip_by p s).

(** [s.strip()] *)
Definition strip (s : str) : str := strip_by py_isspace s.

Definition in_chars (cs : str) (c : ascii) : bool :=
  existsb (Ascii.eqb c) cs.

(** [s.rstrip(cs)] and [s.strip(cs)] *)
Definition rstrip_chars (cs : str) (s : str) : str := rstrip_by (in_chars cs) s.
Definition strip_chars (cs : str) (s : str) : str := strip_by (in_chars cs) s.

(** [s.startswith(p)]; [strip_prefix] also returns what follows. *)
Fixpoint strip_prefix (p s : str) : option str :=
  match p, s with
  | [], _ => Some s
  | x :: p', y :: s' => if Ascii.eqb x y then strip_prefix p' s' else None
  | _ :: _, [] => None
  end.

Definition startswith (p s : str) : bool :=
  match strip_prefix p s with Some _ => true | None => false end.

(** [s.endswith(p)] *)
Definition endswith (p s : str) : bool := startswith (rev p) (rev s).

(** [p in s] for strings *)
Fixpoint contains (p s : str) : bool :=
  startswith p s || match s with [] => false | _ :: s' => contains p s' end.

(** [sep.join(l)] *)
Fixpoint join (sep : str) (l : list str) : str :=
  match l with
  | [] => []
  | [x] => x
  | x :: l' => x ++ sep ++ join sep l'
  end.

(** [s.split(c)] for a one-character separator: empty pieces are kept and
    the empty string gives one empty piece. *)
Fixpoint split_char (c : ascii) (s : str) : list str :=
  match s with
  | [] => [[]]
  | x :: s' =>
      if Ascii.eqb x c then [] :: split_char c s'
      else match split_char c s' with
           | t :: ts => (x :: t) :: ts
           | [] => [[x]]
           end
  end.

(** [s.replace(old, new)] for a non-empty [old]: occurrences are taken
    left to right and do not overlap.  [skip] counts the characters of a
    replaced occurrence that are still to be passed over. *)
Fixpoint replace_from (old new : str) (skip : nat) (s : str) : str :=
  match s with
  | [] => []
  | c :: s' =>
      match skip with
      | S k => replace_from old new k s'
      | O =>
          if startswith old s
          then new ++ replace_from old new (length old - 1) s'
          else c :: replace_from old new 0 s'
      end
  end.

Definition replace (old new s : str) : str := replace_from old new 0 s.

(** [s.lower()]: A..Z, and U+00C0..U+00DE without U+00D7, move up by 32. *)
Definition lower_char (c : ascii) : ascii :=
  let n := nat_of_ascii c in
  if ((65 <=? n) && (n <=? 90))
     || ((192 <=? n) && (n <=? 222) && negb (n =? 215))
  then ascii_of_nat (n + 32) else c.

Definition lower (s : str) : str := map lower_char s.

(** ** The three regular expressions of the converter *)

Definition is_key_char (c : ascii) : bool :=
  let n := nat_of_ascii c in
  ((97 <=? n) && (n <=? 122)) || (n =? 95).

Definition newline : ascii := "010"%char.

(** [re.match(r"(?:highlight|block-color)-([a-z_]+)$", cls)], giving group 1.
    The key is the longest run of [a-z_]; [$] accepts the end of the string
    and the position before a final newline. *)
Definition match_key (rest : str) : option str :=
  let key := takewhile is_key_char rest in
  match key, dropwhile is_key_char rest with
  | _ :: _, [] => Some key
  | _ :: _, [c] => if Ascii.eqb c newline then Some key else None
  | _, _ => None
  end.

Definition color_class_key (cls : str) : option str :=
  match strip_prefix "highlight-" cls with
  | Some rest => match_key rest
  | None =>
      match strip_prefix "block-color-" cls with
      | Some rest => match_key rest
      | None => None
      end
  end.

(** [re.split(r"[,;\n]+", raw)]: the pieces between maximal runs of
    separators, with the empty pieces at either end. *)
Definition is_tag_sep (c : ascii) : bool :=
  Ascii.eqb c ","%char || Ascii.eqb c ";"%char || Ascii.eqb c newline.

Fixpoint re_split_from (sep : ascii -> bool) (in_run : bool) (s : str)
  : list str :=
  match s with
  | [] => [[]]
  | c :: s' =>
      if sep c
      then if in_run then re_split_from sep true s'
           else [] :: re_split_from sep true s'
      else match re_split_from sep false s' with
           | t :: ts => (c :: t) :: ts
           | [] => [[c]]
           end
  end.

Definition re_split (sep : ascii -> bool) (s : str) : list str :=
  re_split_from sep false s.

(** [re.sub(r"\s+", "-", tok)] *)
Fixpoint re_sub_ws_from (in_run : bool) (s : str) : str :=
  match s with
  | [] => []
  | c :: s' =>
      if py_isspace c
      then if in_run then re_sub_ws_from true s'
           else "-"%char :: re_sub_ws_from true s'
      else c :: re_sub_ws_from false s'
  end.

Definition re_sub_ws (s : str) : str := re_sub_ws_from false s.

(** ** The document tree (the BeautifulSoup interface the converter uses)

    An attribute value is a string, or a list of tokens for the
    multi-valued attributes ([class] above all).  The attribute dictionary
    keeps insertion order; serialization writes the attributes sorted by
    name.  Only ordinary text nodes and elements are modelled. *)

Inductive attr_val : Type :=
| AStr (s : str)
| AList (l : list str).

Definition attrs := list (str * attr_val).

Inductive node : Type :=
| Text (s : str)
| Elem (oid : nat) (name : str) (a : attrs) (children : list node).

Definition doc := list node.

(** The text of an attribute value, as serialization and string methods
    see it. *)
Definition attr_text (v : attr_val) : str :=
  match v with
  | AStr s => s
  | AList l => join " " l
  end.

(** [d.get(k)], [d[k] = v] and [d.pop(k, None)] on an ordered dictionary. *)
Fixpoint dict_get (k : str) (d : attrs) : option attr_val :=
  match d with
  | [] => None
  | (k', v) :: d' => if str_eqb k k' then Some v else dict_get k d'
  end.

Fixpoint dict_set (k : str) (v : attr_val) (d : attrs) : attrs :=
  match d with
  | [] => [(k, v)]
  | (k', v') :: d' =>
      if str_eqb k k' then (k', v) :: d' else (k', v') :: dict_set k v d'
  end.

Definition dict_pop (k : str) (d : attrs) : attrs :=
  filter (fun kv => negb (str_eqb k (fst kv))) d.

Definition dict_has (k : str) (d : attrs) : bool :=
  match dict_get k d with Some _ => true | None => false end.

(** Elements below a node, in document order ([find_all(True)]). *)
Fixpoint elements_of (n : node) : list node :=
  match n with
  | Text _ => []
  | Elem _ _ _ cs => n :: flat_map elements_of cs
  end.

Definition descendants (cs : list node) : list node :=
  flat_map elements_of cs.

Definition node_name (n : node) : str :=
  match n with Text _ => [] | Elem _ nm _ _ => nm end.

Definition node_oid (n : node) : nat :=
  match n with Text _ => 0 | Elem i _ _ _ => i end.

Definition node_attrs (n : node) : attrs :=
  match n with Text _ => [] | Elem _ _ a _ => a end.

Definition node_children (n : node) : list node :=
  match n with Text _ => [] | Elem _ _ _ cs => cs end.

(** [tag.find_all(name)] and [tag.find(name)] over the contents [cs] of
    [tag]. *)
Definition find_all (name : str) (cs : list node) : list node :=
  filter (fun n => str_eqb name (node_name n)) (descendants cs).

Definition find (name : str) (cs : list node) : option node :=
  hd_error (find_all name cs).

(** Text nodes below a node, in document order. *)
Fixpoint strings_of (n : node) : list str :=
  match n with
  | Text s => [s]
  | Elem _ _ _ cs => flat_map strings_of cs
  end.

Definition is_nonempty (s : str) : bool :=
  match s with [] => false | _ :: _ => true end.

(** [tag.get_text(sep, strip=True)]: every text node is stripped, the empty
    ones are dropped, the rest are joined by [sep]. *)
Definition get_text (sep : str) (cs : list node) : str :=
  join sep (filter is_nonempty (map strip (flat_map strings_of cs))).

(** Serialization ([decode_contents]) with the default formatter. *)
Definition dquote : ascii := "034"%char.
Definition squote : ascii := "039"%char.

Definition escape_char (c : ascii) : str :=
  if Ascii.eqb c "&"%char then "&amp;"
  else if Ascii.eqb c "<"%char then "&lt;"
  else if Ascii.eqb c ">"%char then "&gt;"
  else [c].

Definition escape (s : str) : str := flat_map escape_char s.

Definition quoted_attribute_value (v : str) : str :=
  if in_chars v dquote
  then if in_chars v squote
       then [dquote] ++ replace [dquote] "&quot;" v ++ [dquote]
       else [squote] ++ v ++ [squote]
  else [dquote] ++ v ++ [dquote].

Definition decode_attr (kv : str * attr_val) : str :=
  " " ++ fst kv ++ "=" ++ quoted_attribute_value (escape (attr_text (snd kv))).

Definition void_tags : list str :=
  map list_ascii_of_string
    ["area"; "base"; "br"; "col"; "embed"; "hr"; "img"; "input"; "keygen";
     "link"; "menuitem"; "meta"; "param"; "source"; "track"; "wbr";
     "basefont"; "bgsound"; "command"; "frame"; "image"; "isindex";
     "nextid"; "spacer"]%string.

Definition mem (x : str) (l : list str) : bool := existsb (str_eqb x) l.

(** [sorted(tag.attrs.items())]: the default formatter writes the
    attributes in the order of their names, compared character by
    character. *)
Fixpoint str_leb (a b : str) : bool :=
  match a, b with
  | [], _ => true
  | _ :: _, [] => false
  | x :: a', y :: b' =>
      if Ascii.eqb x y then str_leb a' b'
      else nat_of_ascii x <? nat_of_ascii y
  end.

Fixpoint insert_attr (kv : str * attr_val) (l : attrs) : attrs :=
  match l with
  | [] => [kv]
  | kv' :: l' =>
      if str_leb (fst kv) (fst kv') then kv :: l
      else kv' :: insert_attr kv l'
  end.

Definition sorted_attrs (a : attrs) : attrs := fold_right insert_attr [] a.

Fixpoint decode (n : node) : str :=
  match n with
  | Text s => escape s
  | Elem _ nm a cs =>
      match cs with
      | [] =>
          if mem nm void_tags
          then "<" ++ nm ++ flat_map decode_attr (sorted_attrs a) ++ "/>"
          else "<" ++ nm ++ flat_map decode_attr (sorted_attrs a)
               ++ "></" ++ nm ++ ">"
      | _ :: _ =>
          "<" ++ nm ++ flat_map decode_attr (sorted_attrs a) ++ ">"
          ++ flat_map decode cs ++ "</" ++ nm ++ ">"
      end
  end.

Definition decode_contents (cs : list node) : str := flat_map decode cs.

(** The element with identity [i] below a node, and the contents a
    reference to [i] sees: an element that [unwrap] took out of the tree
    has no contents left. *)
Fixpoint node_by_oid (i : nat) (n : node) : option node :=
  match n with
  | Text _ => None
  | Elem j _ _ cs =>
      if i =? j then Some n
      else (fix among (l : list node) : option node :=
              match l with
              | [] => None
              | c :: l' =>
                  match node_by_oid i c with
                  | Some r => Some r
                  | None => among l'
                  end
              end) cs
  end.

Fixpoint lookup_oid (i : nat) (d : doc) : option node :=
  match d with
  | [] => None
  | c :: d' =>
      match node_by_oid i c with
      | Some r => Some r
      | None => lookup_oid i d'
      end
  end.

Definition contents_of (i : nat) (d : doc) : list node :=
  match lookup_oid i d with
  | Some n => node_children n
  | None => []
  end.

(** Replace the contents of the element with identity [i]. *)
Fixpoint set_contents_node (i : nat) (new : list node) (n : node) : node :=
  match n with
  | Text _ => n
  | Elem j nm a cs =>
      if i =? j then Elem j nm a new
      else Elem j nm a (map (set_contents_node i new) cs)
  end.

Definition set_contents (i : nat) (new : list node) (d : doc) : doc :=
  map (set_contents_node i new) d.

(** ** The converter *)

Definition CSS_COLOR_MAP : list (str * str) :=
  map (fun kv => (list_ascii_of_string (fst kv), list_ascii_of_string (snd kv)))
    [("default", "black"); ("gray", "gray"); ("brown", "saddlebrown");
     ("orange", "orange"); ("yellow", "gold"); ("teal", "teal");
     ("blue", "blue"); ("purple", "purple"); ("pink", "deeppink");
     ("red", "red")]%string.

Fixpoint color_of (key : str) (m : list (str * str)) : option str :=
  match m with
  | [] => None
  | (k, v) :: m' => if str_eqb key k then Some v else color_of key m'
  end.

Definition ALLOWED_TAGS : list str :=
  map list_ascii_of_string
    ["strong"; "b"; "em"; "i"; "u"; "code"; "pre"; "span"; "br";
     "ul"; "ol"; "li"; "a"; "div"]%string.

(** [el.get("style", "")] *)
Definition get_style (a : attrs) : str :=
  match dict_get "style" a with
  | Some v => attr_text v
  | None => []
  end.

Definition merge_style (a : attrs) (new_rules : str) : attrs :=
  let existing := rstrip_chars ";" (strip (get_style a)) in
  dict_set "style"
    (AStr (if is_nonempty existing then existing ++ ";" ++ new_rules
           else new_rules)) a.

(** [classes.remove(cls)]: the first occurrence goes. *)
Fixpoint remove_first (x : str) (l : list str) : list str :=
  match l with
  | [] => []
  | y :: l' => if str_eqb x y then l' else y :: remove_first x l'
  end.

(** One turn of the loop over [list(classes)]: the state is the class list
    being edited and the attributes of the element. *)
Definition color_class_step (st : list str * attrs) (cls : str)
  : list str * attrs :=
  match color_class_key cls with
  | None => st
  | Some key =>
      let a :=
        if negb (endswith "_background" key)
        then match color_of key CSS_COLOR_MAP with
             | Some col => merge_style (snd st) ("color:" ++ col)
             | None => snd st
             end
        else snd st in
      (remove_first cls (fst st), a)
  end.

Definition convert_color_classes_to_inline (a : attrs) : attrs :=
  match dict_get "class" a with
  | Some (AList (c :: cs)) =>
      let st := fold_left color_class_step (c :: cs) (c :: cs, a) in
      match fst st with
      | [] => dict_pop "class" (snd st)
      | _ :: _ => dict_set "class" (AList (fst st)) (snd st)
      end
  | _ => a
  end.

(** A loop [for el in cell.find_all(...): body(el)] whose body rewrites only
    the name and the attributes of [el] acts on every element below the
    cell, each taken once. *)
Fixpoint for_each_element (body : str -> attrs -> str * attrs) (n : node)
  : node :=
  match n with
  | Text _ => n
  | Elem i nm a cs =>
      Elem i (fst (body nm a)) (snd (body nm a))
        (map (for_each_element body) cs)
  end.

Definition mark_body (nm : str) (a : attrs) : str * attrs :=
  if str_eqb nm "mark" then ("span" : str, convert_color_classes_to_inline a)
  else (nm, a).

Definition span_body (nm : str) (a : attrs) : str * attrs :=
  if str_eqb nm "span" then (nm, convert_color_classes_to_inline a)
  else (nm, a).

(** [href = a.get("href"); a.attrs = {"href": href} if href else {}] *)
Definition anchor_attrs (a : attrs) : attrs :=
  match dict_get "href" a with
  | Some v => if is_nonempty (attr_text v) then [("href" : str, v)] else []
  | None => []
  end.

Definition anchor_body (nm : str) (a : attrs) : str * attrs :=
  if str_eqb nm "a" then (nm, anchor_attrs a) else (nm, a).

(** [tag.unwrap()] for every element whose name is not allowed; parents
    come before their children in [find_all(True)], and the children of an
    unwrapped element take its place. *)
Fixpoint unwrap_disallowed (n : node) : list node :=
  match n with
  | Text _ => [n]
  | Elem i nm a cs =>
      if mem nm ALLOWED_TAGS
      then [Elem i nm a (flat_map unwrap_disallowed cs)]
      else flat_map unwrap_disallowed cs
  end.

(** The new value of a [style] attribute: the declarations that do not
    start with [background-color], the blank ones left out, joined by [;]. *)
Definition strip_background (style : str) : str :=
  let styles :=
    filter (fun s => negb (startswith "background-color" (strip s)))
      (split_char ";"%char style) in
  join ";" (filter (fun s => is_nonempty (strip s)) styles).

Definition style_body (nm : str) (a : attrs) : str * attrs :=
  match dict_get "style" a with
  | Some v => (nm, dict_set "style" (AStr (strip_background (attr_text v))) a)
  | None => (nm, a)
  end.

(** The tree part of rich sanitization, on the contents of the cell. *)
Definition sanitize_tree (cs : list node) : list node :=
  let cs1 := map (for_each_element mark_body) cs in
  let cs2 := map (for_each_element span_body) cs1 in
  let cs3 := map (for_each_element anchor_body) cs2 in
  let cs4 := flat_map unwrap_disallowed cs3 in
  map (for_each_element style_body) cs4.

Definition fence : str := "```".

Definition DIV_OPEN : str :=
  "<div style=" ++ [dquote]
  ++ "font-family:Menlo,Consolas,'Courier New',monospace; "
  ++ "white-space:pre" ++ [dquote] ++ ">".

(** The shortest text before a closing fence. *)
Fixpoint find_close (s : str) : option str :=
  if startswith fence s then Some []
  else match s with
       | [] => None
       | c :: s' =>
           match find_close s' with
           | Some inner => Some (c :: inner)
           | None => None
           end
       end.

Section WithParser.

(** [BeautifulSoup(text, "html.parser")]: the parser is outside the
    converter and is taken as given. *)
Variable html_parser : str -> list node.

Definition fence_replacer (inner : str) : str :=
  let inner_soup := map (for_each_element style_body) (html_parser inner) in
  DIV_OPEN ++ decode_contents inner_soup ++ "</div>".

(** [re.sub(r"```(.*?)```", fence_replacer, tmp, flags=re.DOTALL)]: at each
    position the pattern is tried; a match is replaced and passed over
    ([skip] counts what is left of it), otherwise the character is kept. *)
Fixpoint fence_sub_from (skip : nat) (s : str) : str :=
  match s with
  | [] => []
  | c :: s' =>
      match skip with
      | S k => fence_sub_from k s'
      | O =>
          match strip_prefix fence s with
          | Some rest =>
              match find_close rest with
              | Some inner =>
                  fence_replacer inner
                  ++ fence_sub_from (length inner + 5) s'
              | None => c :: fence_sub_from 0 s'
              end
          | None => c :: fence_sub_from 0 s'
          end
      end
  end.

Definition fence_sub (s : str) : str := fence_sub_from 0 s.

(** The text part of rich sanitization, on the serialized contents. *)
Definition sanitize_text (decoded : str) : str :=
  let html_str := replace "<br />" "<br/>" (replace "<br>" "<br/>" decoded) in
  let tmp := replace "<br/>" [newline] html_str in
  let tmp := fence_sub tmp in
  replace [newline] "<br/>" tmp.

(** [sanitize_inline_html(cell, strip_all)]: the cell is a reference into
    the document, which rich mode rewrites in place. *)
Definition sanitize_inline_html (cell : nat) (strip_all : bool) (d : doc)
  : str * doc :=
  if strip_all then (get_text " " (contents_of cell d), d)
  else
    let cs := sanitize_tree (contents_of cell d) in
    (sanitize_text (decode_contents cs), set_contents cell cs d).

End WithParser.

(** [tags_from_cell]: [raw] is the text of the cell. *)
Definition tag_step (st : list str * list str) (tok : str)
  : list str * list str :=
  let tok := strip_chars ",;" (re_sub_ws (strip tok)) in
  if is_nonempty tok && negb (mem tok (snd st))
  then (fst st ++ [tok], tok :: snd st)
  else st.

Definition tags_of_text (raw : str) : str :=
  let tokens :=
    map strip
      (filter (fun t => is_nonempty (strip t)) (re_split is_tag_sep raw)) in
  join " " (fst (fold_left tag_step tokens ([], []))).

Definition tags_from_cell (cell : nat) (d : doc) : str :=
  tags_of_text (get_text " " (contents_of cell d)).

(** ** Exceptions *)

Inductive exn : Type :=
| RuntimeError (msg : str)
| IndexError
| KeyError (key : str).

Inductive result (A : Type) : Type :=
| Ok (x : A)
| Raise (e : exn).
Arguments Ok {A} x.
Arguments Raise {A} e.

Definition bind {A B} (c : result A) (k : A -> result B) : result B :=
  match c with
  | Ok x => k x
  | Raise e => Raise e
  end.

Notation "x <- c ;; k" := (bind c (fun x => k))
  (at level 61, c at next level, right associativity).

(** ** The table locator *)

Record col_map : Type := mkColMap {
  cm_id : option nat;
  cm_front : option nat;
  cm_back : option nat;
  cm_tags : option nat
}.

Definition empty_col_map : col_map := mkColMap None None None None.

Definition assign_role (cm : col_map) (h : nat * str) : col_map :=
  let idx := fst h in
  let name := snd h in
  if contains "notion-id" name
  then mkColMap (Some idx) (cm_front cm) (cm_back cm) (cm_tags cm)
  else if str_eqb name "front"
  then mkColMap (cm_id cm) (Some idx) (cm_back cm) (cm_tags cm)
  else if str_eqb name "back"
  then mkColMap (cm_id cm) (cm_front cm) (Some idx) (cm_tags cm)
  else if contains "tags" name
  then mkColMap (cm_id cm) (cm_front cm) (cm_back cm) (Some idx)
  else cm.

Definition enumerate {A} (l : list A) : list (nat * A) :=
  combine (seq 0 (length l)) l.

Definition build_col_map (headers : list str) : col_map :=
  fold_left assign_role (enumerate headers) empty_col_map.

Definition col_map_get (col : str) (cm : col_map) : option nat :=
  if str_eqb col "id" then cm_id cm
  else if str_eqb col "front" then cm_front cm
  else if str_eqb col "back" then cm_back cm
  else if str_eqb col "tags" then cm_tags cm
  else None.

Definition required : list str :=
  map list_ascii_of_string ["id"; "front"; "back"]%string.

Definition missing_column_msg (col : str) : str :=
  "Missing required column '" ++ col ++ "' in Notion table.".

Fixpoint check_required (cols : list str) (cm : col_map) : result unit :=
  match cols with
  | [] => Ok tt
  | col :: cols' =>
      match col_map_get col cm with
      | Some _ => check_required cols' cm
      | None => Raise (RuntimeError (missing_column_msg col))
      end
  end.

Definition no_table_msg : str := "Could not find <table> in HTML export.".
Definition no_thead_msg : str := "Could not find <thead> in HTML table.".
Definition no_tbody_msg : str := "Could not find <tbody> in HTML table.".

Definition read_headers (thead : node) : list str :=
  map (fun th => lower (get_text [] (node_children th)))
    (find_all "th" (node_children thead)).

Definition parse_table (soup : doc) : result (node * col_map) :=
  match find "table" soup with
  | None => Raise (RuntimeError no_table_msg)
  | Some table =>
      match find "thead" (node_children table) with
      | None => Raise (RuntimeError no_thead_msg)
      | Some thead =>
          let cm := build_col_map (read_headers thead) in
          _ <- check_required required cm ;;
          Ok (table, cm)
      end
  end.

(** ** The conversion *)

Record record : Type := mkRecord {
  Notion_ID : str;
  Front : str;
  Back : str;
  Tags : str
}.

(** [tds[col_map[key]]] *)
Definition cell_at (tds : list nat) (key : str) (cm : col_map) : result nat :=
  match col_map_get key cm with
  | None => Raise (KeyError key)
  | Some i =>
      match nth_error tds i with
      | Some cell => Ok cell
      | None => Raise IndexError
      end
  end.

Section Conversion.

Variable html_parser : str -> list node.

(** The body of the loop over the rows: the document as it stands, and the
    record of the row unless it has no cell. *)
Definition convert_row (cm : col_map) (d : doc) (tr : nat)
  : result (doc * option record) :=
  let tds := map node_oid (find_all "td" (contents_of tr d)) in
  match tds with
  | [] => Ok (d, None)
  | _ :: _ =>
      id_cell <- cell_at tds "id" cm ;;
      let notion_id := get_text [] (contents_of id_cell d) in
      front_cell <- cell_at tds "front" cm ;;
      let front := sanitize_inline_html html_parser front_cell true d in
      back_cell <- cell_at tds "back" cm ;;
      let back := sanitize_inline_html html_parser back_cell false (snd front) in
      tags <- match cm_tags cm with
              | Some _ =>
                  tags_cell <- cell_at tds "tags" cm ;;
                  Ok (tags_from_cell tags_cell (snd back))
              | None => Ok []
              end ;;
      Ok (snd back, Some (mkRecord notion_id (fst front) (fst back) tags))
  end.

Fixpoint convert_rows (cm : col_map) (d : doc) (trs : list nat)
  : result (doc * list record) :=
  match trs with
  | [] => Ok (d, [])
  | tr :: trs' =>
      step <- convert_row cm d tr ;;
      rest <- convert_rows cm (fst step) trs' ;;
      Ok (fst rest,
          match snd step with
          | Some r => r :: snd rest
          | None => snd rest
          end)
  end.

Definition fieldnames : list str :=
  map list_ascii_of_string ["Notion-ID"; "Front"; "Back"; "Tags"]%string.

Definition record_fields (r : record) : list str :=
  [Notion_ID r; Front r; Back r; Tags r].

(** [convert_file]: [soup] is the parsed input; the second component is the
    content of the output file, a header row and one row for each record,
    or what was there before when nothing is written. *)
Definition convert_file (soup : doc) (out : option (list (list str)))
  : result unit * option (list (list str)) :=
  match parse_table soup with
  | Raise e => (Raise e, out)
  | Ok (table, cm) =>
      match find "tbody" (node_children table) with
      | None => (Raise (RuntimeError no_tbody_msg), out)
      | Some tbody =>
          let trs := map node_oid (find_all "tr" (node_children tbody)) in
          match convert_rows cm soup trs with
          | Raise e => (Raise e, out)
          | Ok (_, rows_out) =>
              (Ok tt, Some (fieldnames :: map record_fields rows_out))
          end
      end
  end.

End Conversion.

(** ** Notions used in the statements *)

(** The existing style as [merge_style] reads it. *)
Definition existing_style (a : attrs) : str :=
  rstrip_chars ";" (strip (get_style a)).

(** A character that is neither white space nor a semicolon. *)
Definition solid_char (c : ascii) : bool :=
  negb (py_isspace c) && negb (Ascii.eqb c ";"%char).

(** A class token that the resolver recognizes, and the declaration it
    contributes, if any. *)
Definition is_color_class (t : str) : bool :=
  match color_class_key t with Some _ => true | None => false end.

Definition class_style (t : str) : option str :=
  match color_class_key t with
  | Some key =>
      if endswith "_background" key then None
      else match color_of key CSS_COLOR_MAP with
           | Some col => Some ("color:" ++ col)
           | None => None
           end
  | None => None
  end.

Fixpoint filter_map {A B} (f : A -> option B) (l : list A) : list B :=
  match l with
  | [] => []
  | x :: l' =>
      match f x with
      | Some y => y :: filter_map f l'
      | None => filter_map f l'
      end
  end.

(** The class list of an element, empty when it has no class attribute. *)
Definition class_list (a : attrs) : list str :=
  match dict_get "class" a with
  | Some (AList l) => l
  | _ => []
  end.

(** Writing back a class list: an empty one removes the attribute. *)
Definition with_classes (l : list str) (a : attrs) : attrs :=
  match l with
  | [] => dict_pop "class" a
  | _ :: _ => dict_set "class" (AList l) a
  end.

Definition str_eq_dec : forall a b : str, {a = b} + {a <> b} :=
  list_eq_dec ascii_dec.

(** What [tags_from_cell] makes of one token, the tokens of a cell text
    that survive, and a list without its repeated elements, each kept
    where it is first seen. *)
Definition normalize_tag (tok : str) : str :=
  strip_chars ",;" (re_sub_ws (strip tok)).

Definition tag_candidates (raw : str) : list str :=
  filter is_nonempty
    (map normalize_tag
       (map strip
          (filter (fun t => is_nonempty (strip t))
             (re_split is_tag_sep raw)))).

Definition first_seen (l : list str) : list str :=
  rev (nodup str_eq_dec (rev l)).

(** An element with the given name somewhere below. *)
Definition has_element (name : str) (cs : list node) : bool :=
  existsb (fun n => str_eqb name (node_name n)) (descendants cs).

(** The header texts that give a column to a required role. *)
Definition maps_role (col : str) (header : str) : bool :=
  if str_eqb col "id" then contains "notion-id" header
  else if str_eqb col "front" then str_eqb header "front"
  else if str_eqb col "back" then str_eqb header "back"
  else false.

(** [violates soup msg]: the document misses what the message names: a
    table, the header section or the body section of its first table, or a
    header for one of the roles id, front and back.  The messages are
    spelled out. *)
Inductive violates (soup : doc) : str -> Prop :=
| no_table :
    has_element "table" soup = false ->
    violates soup "Could not find <table> in HTML export."
| no_thead table :
    find "table" soup = Some table ->
    has_element "thead" (node_children table) = false ->
    violates soup "Could not find <thead> in HTML table."
| no_column table thead col :
    find "table" soup = Some table ->
    find "thead" (node_children table) = Some thead ->
    col = list_ascii_of_string "id" \/ col = list_ascii_of_string "front"
    \/ col = list_ascii_of_string "back" ->
    forallb (fun h => negb (maps_role col h)) (read_headers thead) = true ->
    violates soup ("Missing required column '" ++ col ++ "' in Notion table.")
| no_tbody table :
    find "table" soup = Some table ->
    has_element "tbody" (node_children table) = false ->
    violates soup "Could not find <tbody> in HTML table.".

(** A link element. *)
Definition is_link (n : node) : bool := str_eqb (node_name n) "a".

(** A style value whose declarations are all [background-color] ones or
    blank. *)
Definition only_background (style : str) : bool :=
  forallb
    (fun s => startswith "background-color" (strip s)
              || negb (is_nonempty (strip s)))
    (split_char ";"%char style).

(** A declaration that [strip_background] keeps. *)
Definition kept_declaration (s : str) : bool :=
  negb (startswith "background-color" (strip s)) && is_nonempty (strip s).

(** What the loops over marks, spans and links make, one after the other,
    of the name and the attributes of an element. *)
Definition loops_body (nm : str) (a : attrs) : str * attrs :=
  let b1 := mark_body nm a in
  let b2 := span_body (fst b1) (snd b1) in
  anchor_body (fst b2) (snd b2).

(** The identity and the attributes of an element. *)
Definition oid_attrs (n : node) : nat * attrs := (node_oid n, node_attrs n).

(** No fence marker starts inside [pre], whatever follows [pre] is a fence
    or not: [pre] followed by two backticks holds no fence. *)
Definition no_fence_starts_in (pre : str) : bool :=
  negb (contains fence (pre ++ "``")).





(** A parser for text without markup: one text node, none for the empty
    text. *)
Definition plain_parser (s : str) : list node :=
  match s with
  | [] => []
  | _ :: _ => [Text s]
  end.

(** ** The rows of the table body, as the loop meets them *)

(** The cells of a row in the document as it stands. *)
Definition row_cells (d : doc) (tr : nat) : list nat :=
  map node_oid (find_all "td" (contents_of tr d)).

Definition has_cell (tds : list nat) (i : option nat) : bool :=
  match i with
  | Some k => k <? length tds
  | None => false
  end.

(** The row has a cell for each mapped column: id, front, back, and tags
    when that role is mapped. *)
Definition covers (cm : col_map) (tds : list nat) : bool :=
  has_cell tds (cm_id cm) && has_cell tds (cm_front cm)
  && has_cell tds (cm_back cm)
  && match cm_tags cm with
     | Some k => k <? length tds
     | None => true
     end.

Definition cell_of (tds : list nat) (i : option nat) : nat :=
  match i with
  | Some k => nth k tds 0
  | None => 0
  end.

Section Rows.

Variable html_parser : str -> list node.
Variable cm : col_map.

(** The document after the row: its back cell has been sanitized. *)
Definition row_after (d : doc) (tds : list nat) : doc :=
  snd (sanitize_inline_html html_parser (cell_of tds (cm_back cm)) false d).

(** The record of the row: the text of the id cell, the front cell in
    plain-text mode, the back cell in rich mode, and the tags cell, read
    once the back cell has been sanitized, or the empty string. *)
Definition row_record (d : doc) (tds : list nat) : record :=
  mkRecord
    (get_text [] (contents_of (cell_of tds (cm_id cm)) d))
    (fst (sanitize_inline_html html_parser
            (cell_of tds (cm_front cm)) true d))
    (fst (sanitize_inline_html html_parser
            (cell_of tds (cm_back cm)) false d))
    (match cm_tags cm with
     | Some k => tags_from_cell (nth k tds 0) (row_after d tds)
     | None => []
     end).

(** Every row, when the loop reaches it, has no cell or has a cell for
    each mapped column. *)
Fixpoint rows_ready (d : doc) (trs : list nat) : Prop :=
  match trs with
  | [] => True
  | tr :: trs' =>
      (row_cells d tr = [] /\ rows_ready d trs')
      \/ (row_cells d tr <> [] /\ covers cm (row_cells d tr) = true
          /\ rows_ready (row_after d (row_cells d tr)) trs')
  end.

(** [rows_run d trs d' rs]: going through the rows [trs] in order from
    the document [d], a row without cells is passed over and a row with
    cells gives one record; [rs] are the records, in the order of the
    rows, and [d'] is the document at the end. *)
Inductive rows_run : doc -> list nat -> doc -> list record -> Prop :=
| run_done d : rows_run d [] d []
| run_skip d tr trs d' rs :
    row_cells d tr = [] ->
    rows_run d trs d' rs ->
    rows_run d (tr :: trs) d' rs
| run_emit d tr trs d' rs :
    row_cells d tr <> [] ->
    covers cm (row_cells d tr) = true ->
    rows_run (row_after d (row_cells d tr)) trs d' rs ->
    rows_run d (tr :: trs) d' (row_record d (row_cells d tr) :: rs).

End Rows.

(** ** Sample documents *)

Definition text (s : string) : node := Text s.

Definition elem (i : nat) (name : string) (a : attrs) (cs : list node)
  : node :=
  Elem i name a cs.

Definition class_attr (l : list string) : str * attr_val :=
  ("class" : str, AList (map list_ascii_of_string l)).

Definition style_attr (s : string) : str * attr_val :=
  ("style" : str, AStr s).

Definition href_attr (s : string) : str * attr_val :=
  ("href" : str, AStr s).

(** The document of [tests/test_converter.py]. *)
Definition smoke_thead : node :=
  elem 4 "thead" []
    [elem 5 "tr" []
       [elem 6 "th" [] [text "Notion-ID"]; elem 7 "th" [] [text "Front"];
        elem 8 "th" [] [text "Back"]; elem 9 "th" [] [text "Tags"]]].

Definition smoke_tbody : node :=
  elem 10 "tbody" []
    [elem 11 "tr" []
       [elem 12 "td" [] [text "123"];
        elem 13 "td" [] [text "What is OSPF?"];
        elem 14 "td" []
          [elem 15 "mark" [class_attr ["highlight-red"]] [text "Link-state"];
           text " protocol"];
        elem 16 "td" [] [text "OSPF LSA, Routing"]]].

Definition smoke_table : node := elem 3 "table" [] [smoke_thead; smoke_tbody].

Definition smoke_doc : doc :=
  [elem 1 "html" [] [elem 2 "body" [] [smoke_table]]].

Definition smoke_col_map : col_map :=
  mkColMap (Some 0) (Some 1) (Some 2) (Some 3).

(** A table whose header row has no Back column. *)
Definition no_back_thead : node :=
  elem 2 "thead" []
    [elem 3 "tr" []
       [elem 4 "th" [] [text "Notion-ID"]; elem 5 "th" [] [text "Front"]]].

Definition no_back_table : node :=
  elem 1 "table" [] [no_back_thead; elem 6 "tbody" [] []].

Definition no_back_doc : doc := [no_back_table].

(** A table with three columns and a row of one cell. *)
Definition short_row_doc : doc :=
  [elem 1 "table" []
     [elem 2 "thead" []
        [elem 3 "tr" []
           [elem 4 "th" [] [text "Notion-ID"]; elem 5 "th" [] [text "Front"];
            elem 6 "th" [] [text "Back"]]];
      elem 7 "tbody" []
        [elem 8 "tr" [] [elem 9 "td" [] [text "123"]]]]].

(** A row inside the back cell of another row: sanitizing the outer back
    cell unwraps the inner row and its cells. *)
Definition nested_row_doc : doc :=
  [elem 1 "table" []
     [elem 2 "thead" []
        [elem 3 "tr" []
           [elem 4 "th" [] [text "Notion-ID"]; elem 5 "th" [] [text "Front"];
            elem 6 "th" [] [text "Back"]]];
      elem 7 "tbody" []
        [elem 8 "tr" []
           [elem 9 "td" [] [text "1"]; elem 10 "td" [] [text "q"];
            elem 11 "td" []
              [elem 12 "table" []
                 [elem 13 "tr" []
                    [elem 14 "td" [] [text "x"]; elem 15 "td" [] [text "y"];
                     elem 16 "td" [] [text "z"]]]]]]]].

(** A cell whose span has a background color and nothing else. *)
Definition background_cell : doc :=
  [elem 1 "td" []
     [elem 2 "span" [style_attr "background-color:red"] [text "x"]]].

(** A link with an empty [href] and a class. *)
Definition empty_href_link : node :=
  elem 1 "a" [href_attr ""; class_attr ["ref"]] [text "here"].

(** ** Trimmed texts *)

(** A text with no white space at either end. *)
Definition solid_ends (p : ascii -> bool) (s : str) : Prop :=
  exists x t u y, s = x :: t /\ s = u ++ [y] /\ p x = false /\ p y = false.

(** ** Further notions used in the statements *)

(** The declarations of a style value, and a style value without any
    background-color declaration. *)
Definition declarations (style : str) : list str := split_char ";"%char style.

Definition background_free (style : str) : bool :=
  forallb (fun s => negb (startswith "background-color" (strip s)))
    (declarations style).

(** The attributes hold no style with a background-color declaration. *)
Definition style_background_free (a : attrs) : bool :=
  match dict_get "style" a with
  | Some v => background_free (attr_text v)
  | None => true
  end.

(** The role that a header text gives to its column, by the chain of tests
    of [parse_table], and the four roles. *)
Definition header_role (name : str) : option str :=
  if contains "notion-id" name then Some (list_ascii_of_string "id")
  else if str_eqb name "front" then Some (list_ascii_of_string "front")
  else if str_eqb name "back" then Some (list_ascii_of_string "back")
  else if contains "tags" name then Some (list_ascii_of_string "tags")
  else None.

Definition has_role (col header : str) : bool :=
  match header_role header with
  | Some r => str_eqb r col
  | None => false
  end.

Definition roles : list str :=
  map list_ascii_of_string ["id"; "front"; "back"; "tags"]%string.

(** The name of an element once the loop over marks has run, and the
    elements that rich sanitization keeps: those whose name is then an
    allowed one. *)
Definition renamed (nm : str) : str :=
  if str_eqb nm "mark" then list_ascii_of_string "span" else nm.

Definition survives (n : node) : bool := mem (renamed (node_name n)) ALLOWED_TAGS.

(** * Proofs *)

(** * Strings and dictionaries *)

Lemma str_eqb_refl (a : str) : str_eqb a a = true.
Proof.
  induction a as [|x a IH]; simpl; [reflexivity|].
  now rewrite Ascii.eqb_refl, IH.
Qed.

Lemma str_eqb_eq (a b : str) : str_eqb a b = true <-> a = b.
Proof.
  split.
  - revert b. induction a as [|x a IH]; intros [|y b] H; simpl in H;
      try discriminate; [reflexivity|].
    apply andb_true_iff in H as [Hx Hab].
    apply Ascii.eqb_eq in Hx. subst. f_equal. now apply IH.
  - intros ->. apply str_eqb_refl.
Qed.

Lemma str_eqb_neq (a b : str) : str_eqb a b = false <-> a <> b.
Proof.
  rewrite <- str_eqb_eq. destruct (str_eqb a b); split; congruence.
Qed.

Lemma str_eqb_sym (a b : str) : str_eqb a b = str_eqb b a.
Proof.
  destruct (str_eqb a b) eqn:E.
  - apply str_eqb_eq in E. subst. symmetry. apply str_eqb_refl.
  - destruct (str_eqb b a) eqn:E'; [|reflexivity].
    apply str_eqb_eq in E'. subst. now rewrite str_eqb_refl in E.
Qed.

Lemma mem_In (x : str) (l : list str) : mem x l = true <-> In x l.
Proof.
  unfold mem. rewrite existsb_exists. split.
  - intros [y [Hy E]]. apply str_eqb_eq in E. now subst.
  - intros H. exists x. split; [assumption | apply str_eqb_refl].
Qed.

Lemma dict_get_set_same k v d : dict_get k (dict_set k v d) = Some v.
Proof.
  induction d as [|[k' v'] d IH]; simpl.
  - now rewrite str_eqb_refl.
  - destruct (str_eqb k k') eqn:E; simpl; rewrite E; [reflexivity | exact IH].
Qed.

Lemma dict_get_set_other k k' v d :
  k <> k' -> dict_get k (dict_set k' v d) = dict_get k d.
Proof.
  intros Hk. induction d as [|[k0 v0] d IH]; simpl.
  - apply str_eqb_neq in Hk. now rewrite Hk.
  - destruct (str_eqb k' k0) eqn:E; simpl.
    + apply str_eqb_eq in E. subst k0. apply str_eqb_neq in Hk.
      now rewrite Hk.
    + now rewrite IH.
Qed.


Lemma dict_get_pop_same k d : dict_get k (dict_pop k d) = None.
Proof.
  induction d as [|[k' v'] d IH]; simpl; [reflexivity|].
  destruct (str_eqb k k') eqn:E; simpl; [exact IH|].
  now rewrite E.
Qed.

Lemma dict_get_pop_other k k' d :
  k <> k' -> dict_get k (dict_pop k' d) = dict_get k d.
Proof.
  intros Hk. induction d as [|[k0 v0] d IH]; simpl; [reflexivity|].
  destruct (str_eqb k' k0) eqn:E; simpl.
  - apply str_eqb_eq in E. subst k0. apply str_eqb_neq in Hk. now rewrite Hk.
  - now rewrite IH.
Qed.

(** * Stripping *)

Lemma dropwhile_app_solid {A} (p : A -> bool) s1 c s2 :
  p c = false -> dropwhile p (s1 ++ c :: s2) = dropwhile p s1 ++ c :: s2.
Proof.
  intros Hc. induction s1 as [|x s1 IH]; simpl.
  - now rewrite Hc.
  - destruct (p x); [exact IH | reflexivity].
Qed.

Lemma rstrip_by_app_solid p s1 c s2 :
  p c = false -> rstrip_by p (s1 ++ c :: s2) = s1 ++ c :: rstrip_by p s2.
Proof.
  intros Hc. unfold rstrip_by.
  rewrite rev_app_distr. simpl. rewrite <- app_assoc. simpl.
  rewrite dropwhile_app_solid by assumption.
  rewrite rev_app_distr. simpl. rewrite rev_involutive.
  now rewrite <- app_assoc.
Qed.

Lemma dropwhile_suffix {A} (p : A -> bool) s :
  exists t, s = t ++ dropwhile p s.
Proof.
  induction s as [|x s [t IH]]; simpl.
  - now exists [].
  - destruct (p x).
    + exists (x :: t). simpl. now f_equal.
    + now exists [].
Qed.

Lemma rstrip_by_prefix p s : exists t, s = rstrip_by p s ++ t.
Proof.
  unfold rstrip_by. destruct (dropwhile_suffix p (rev s)) as [t Ht].
  exists (rev t). rewrite <- rev_app_distr, <- Ht. now rewrite rev_involutive.
Qed.

Lemma dropwhile_head {A} (p : A -> bool) s x t :
  dropwhile p s = x :: t -> p x = false.
Proof.
  induction s as [|y s IH]; simpl; [discriminate|].
  destruct (p y) eqn:E; [exact IH|].
  intros H. injection H as -> _. exact E.
Qed.

Lemma strip_by_head p s x t : strip_by p s = x :: t -> p x = false.
Proof.
  unfold strip_by, lstrip_by. intros H.
  destruct (rstrip_by_prefix p (dropwhile p s)) as [u Hu].
  rewrite H in Hu. simpl in Hu. now apply dropwhile_head in Hu.
Qed.

(** * The style merger *)

Lemma get_style_merge a f :
  get_style (merge_style a f)
  = if is_nonempty (existing_style a) then existing_style a ++ ";" ++ f else f.
Proof.
  unfold merge_style, get_style at 1. rewrite dict_get_set_same. reflexivity.
Qed.

Lemma in_chars_semicolon c : in_chars ";" c = Ascii.eqb c ";"%char.
Proof. unfold in_chars. simpl. now rewrite orb_false_r. Qed.

Lemma trim_solid s1 c s2 :
  solid_char c = true ->
  rstrip_chars ";" (strip (s1 ++ c :: s2))
  = dropwhile py_isspace s1 ++ c :: rstrip_chars ";" (rstrip_by py_isspace s2).
Proof.
  intros Hc. apply andb_true_iff in Hc as [Hsp Hsemi].
  apply negb_true_iff in Hsp, Hsemi.
  unfold strip, strip_by, lstrip_by, rstrip_chars.
  rewrite dropwhile_app_solid by assumption.
  rewrite rstrip_by_app_solid by assumption.
  rewrite rstrip_by_app_solid; [reflexivity|].
  now rewrite in_chars_semicolon.
Qed.

Lemma existing_style_head a x t :
  existing_style a = x :: t -> py_isspace x = false.
Proof.
  unfold existing_style, rstrip_chars. intros H.
  destruct (rstrip_by_prefix (in_chars ";") (strip (get_style a))) as [u Hu].
  rewrite H in Hu. simpl in Hu. now apply strip_by_head in Hu.
Qed.

Lemma existing_after_merge a f1 c f2 :
  solid_char c = true ->
  exists p e2,
    get_style (merge_style a (f1 ++ c :: f2)) = p ++ f1 ++ c :: f2
    /\ existing_style (merge_style a (f1 ++ c :: f2)) = e2
    /\ length p < length e2 + 1
    /\ is_nonempty e2 = true.
Proof.
  intros Hc. pose proof (get_style_merge a (f1 ++ c :: f2)) as Hs.
  assert (Hx : forall m, existing_style m
                         = rstrip_chars ";" (strip (get_style m)))
    by reflexivity.
  rewrite Hx, Hs. clear Hx Hs.
  destruct (existing_style a) as [|x e] eqn:He; cbn [is_nonempty].
  - exists [], (dropwhile py_isspace f1
                ++ c :: rstrip_chars ";" (rstrip_by py_isspace f2)).
    split; [reflexivity|]. split; [now apply trim_solid|].
    split; [simpl; lia|]. now destruct (dropwhile py_isspace f1).
  - apply existing_style_head in He as Hx.
    exists (x :: e ++ ";"),
      (x :: (e ++ ";" ++ f1)
         ++ c :: rstrip_chars ";" (rstrip_by py_isspace f2)).
    split; [simpl; now rewrite <- app_assoc|].
    split.
    + replace ((x :: e) ++ ";" ++ f1 ++ c :: f2)
        with ((x :: e ++ ";" ++ f1) ++ c :: f2)
        by (simpl; now rewrite <- !app_assoc).
      rewrite trim_solid by assumption. simpl. now rewrite Hx.
    + split; [|reflexivity].
      cbn [length]. repeat (rewrite length_app; cbn [length]). lia.
Qed.

(** C6 (amended): the style merger appends.  One application sets the
    style to the existing style, trimmed of surrounding white space and then
    of trailing semicolons, followed by a semicolon and the fragment, or to
    the fragment alone when nothing exists.  A second application with the
    same fragment appends the fragment once more to the trimmed result of the
    first, so for a fragment with any content (a character other than white
    space and semicolons) two applications differ from one. *)
Theorem merge_style_appends (a : attrs) (f : str) :
  existsb solid_char f = true ->
  get_style (merge_style a f)
  = (if is_nonempty (existing_style a)
     then existing_style a ++ ";" ++ f else f)
  /\ get_style (merge_style (merge_style a f) f)
     = existing_style (merge_style a f) ++ ";" ++ f
  /\ merge_style (merge_style a f) f <> merge_style a f.
Proof.
  intros Hf. apply existsb_exists in Hf as [c [Hin Hc]].
  apply in_split in Hin as [f1 [f2 ->]].
  destruct (existing_after_merge a f1 c f2 Hc) as [p [e2 [Hs [He [Hlen Hne]]]]].
  split; [apply get_style_merge|].
  assert (H2 : get_style (merge_style (merge_style a (f1 ++ c :: f2))
                            (f1 ++ c :: f2))
               = e2 ++ ";" ++ f1 ++ c :: f2).
  { rewrite get_style_merge, He, Hne. reflexivity. }
  split; [now rewrite He|].
  intros Heq. rewrite Heq in H2. rewrite Hs in H2.
  apply (f_equal (@length ascii)) in H2.
  repeat (rewrite length_app in H2; cbn [length] in H2).
  change (length (list_ascii_of_string ";")) with 1 in H2. lia.
Qed.

(** * The color-class resolver *)

Lemma remove_first_app_head t pre l :
  ~ In t pre -> remove_first t (pre ++ t :: l) = pre ++ l.
Proof.
  induction pre as [|y pre IH]; simpl; intros Hn.
  - now rewrite str_eqb_refl.
  - destruct (str_eqb t y) eqn:E.
    + apply str_eqb_eq in E. subst. exfalso. apply Hn. now left.
    + f_equal. apply IH. intros H. apply Hn. now right.
Qed.

Lemma color_class_step_eq st t :
  color_class_step st t
  = if is_color_class t
    then (remove_first t (fst st),
          match class_style t with
          | Some f => merge_style (snd st) f
          | None => snd st
          end)
    else st.
Proof.
  unfold color_class_step, is_color_class, class_style.
  destruct (color_class_key t) as [key|]; [|reflexivity].
  destruct (endswith "_background" key); cbn [negb]; [reflexivity|].
  now destruct (color_of key CSS_COLOR_MAP).
Qed.

Lemma class_style_not_color t :
  is_color_class t = false -> class_style t = None.
Proof.
  unfold is_color_class, class_style.
  now destruct (color_class_key t).
Qed.

Lemma color_class_steps todo : forall pre a,
  (forall t, In t pre -> is_color_class t = false) ->
  fold_left color_class_step todo (pre ++ todo, a)
  = (pre ++ filter (fun t => negb (is_color_class t)) todo,
     fold_left merge_style (filter_map class_style todo) a).
Proof.
  induction todo as [|t todo IH]; intros pre a Hpre.
  - reflexivity.
  - cbn [fold_left filter filter_map]. rewrite color_class_step_eq.
    destruct (is_color_class t) eqn:Hm; cbn [negb fst snd].
    + rewrite remove_first_app_head.
      2:{ intros Hin. apply Hpre in Hin. congruence. }
      destruct (class_style t); cbn [fold_left]; now apply IH.
    + rewrite (class_style_not_color t Hm).
      replace (pre ++ t :: todo) with ((pre ++ [t]) ++ todo)
        by now rewrite <- app_assoc.
      rewrite IH.
      * now rewrite <- app_assoc.
      * intros u Hu. apply in_app_or in Hu as [Hu|[<-|[]]];
          [now apply Hpre | exact Hm].
Qed.

Lemma convert_color_classes_eq a c cs :
  dict_get "class" a = Some (AList (c :: cs)) ->
  convert_color_classes_to_inline a
  = with_classes (filter (fun t => negb (is_color_class t)) (c :: cs))
      (fold_left merge_style (filter_map class_style (c :: cs)) a).
Proof.
  intros Hc. unfold convert_color_classes_to_inline. rewrite Hc.
  change (c :: cs, a) with ([] ++ c :: cs, a).
  rewrite (color_class_steps (c :: cs) [] a) by (intros t []).
  reflexivity.
Qed.

Lemma class_neq_style : (list_ascii_of_string "class") <> "style".
Proof. discriminate. Qed.

Lemma dict_get_class_merge a f :
  dict_get "class" (merge_style a f) = dict_get "class" a.
Proof. unfold merge_style. apply dict_get_set_other. discriminate. Qed.

Lemma dict_get_class_merges fs : forall a,
  dict_get "class" (fold_left merge_style fs a) = dict_get "class" a.
Proof.
  induction fs as [|f fs IH]; intros a; simpl; [reflexivity|].
  now rewrite IH, dict_get_class_merge.
Qed.

Lemma class_list_with_classes l a : class_list (with_classes l a) = l.
Proof.
  unfold class_list. destruct l as [|x l]; simpl.
  - now rewrite dict_get_pop_same.
  - now rewrite dict_get_set_same.
Qed.

Lemma takewhile_all {A} (p : A -> bool) l :
  forallb p l = true -> takewhile p l = l /\ dropwhile p l = [].
Proof.
  induction l as [|x l IH]; simpl; [now split|].
  intros H. apply andb_true_iff in H as [Hx Hl]. rewrite Hx.
  destruct (IH Hl) as [-> ->]. now split.
Qed.

Lemma match_key_lower key :
  key <> [] -> forallb is_key_char key = true -> match_key key = Some key.
Proof.
  intros Hne Hall. unfold match_key.
  destruct (takewhile_all _ _ Hall) as [-> ->].
  destruct key; [contradiction | reflexivity].
Qed.

Lemma color_class_key_marker prefix key :
  prefix = list_ascii_of_string "highlight"
  \/ prefix = list_ascii_of_string "block-color" ->
  key <> [] -> forallb is_key_char key = true ->
  color_class_key (prefix ++ "-" ++ key) = Some key.
Proof.
  intros [-> | ->] Hne Hall; unfold color_class_key; simpl;
    now apply match_key_lower.
Qed.

(** C4 (amended): for an element with a class list, the resolver removes
    every recognized token and leaves the others in place; the style
    changes by merging, in encounter order, what the recognized tokens
    contribute.  A token [<prefix>-<key>] with prefix [highlight] or
    [block-color] and a non-empty key of lowercase letters and underscores
    is recognized, hence removed; it contributes nothing when the key ends
    in [_background] or is not in the color table, and [color:<value>] when
    the table has the key. *)
Theorem color_classes_resolved (a : attrs) (c : str) (cs : list str) :
  dict_get "class" a = Some (AList (c :: cs)) ->
  convert_color_classes_to_inline a
  = with_classes (filter (fun t => negb (is_color_class t)) (c :: cs))
      (fold_left merge_style (filter_map class_style (c :: cs)) a)
  /\ class_list (convert_color_classes_to_inline a)
     = filter (fun t => negb (is_color_class t)) (c :: cs)
  /\ forall prefix key,
       prefix = list_ascii_of_string "highlight"
       \/ prefix = list_ascii_of_string "block-color" ->
       key <> [] -> forallb is_key_char key = true ->
       is_color_class (prefix ++ "-" ++ key) = true
       /\ ~ In (prefix ++ "-" ++ key)
            (class_list (convert_color_classes_to_inline a))
       /\ class_style (prefix ++ "-" ++ key)
          = if endswith "_background" key then None
            else match color_of key CSS_COLOR_MAP with
                 | Some col => Some ("color:" ++ col)
                 | None => None
                 end.
Proof.
  intros Hc. pose proof (convert_color_classes_eq a c cs Hc) as Heq.
  split; [exact Heq|].
  assert (Hl : class_list (convert_color_classes_to_inline a)
               = filter (fun t => negb (is_color_class t)) (c :: cs)).
  { rewrite Heq. apply class_list_with_classes. }
  split; [exact Hl|].
  intros prefix key Hp Hne Hall.
  pose proof (color_class_key_marker prefix key Hp Hne Hall) as Hk.
  assert (Hm : is_color_class (prefix ++ "-" ++ key) = true)
    by (unfold is_color_class; now rewrite Hk).
  split; [exact Hm|]. split.
  - rewrite Hl. intros Hin. apply filter_In in Hin as [_ Hin].
    now rewrite Hm in Hin.
  - unfold class_style. now rewrite Hk.
Qed.


(** * The tag normalizer *)

Lemma Forall_dropwhile {A} (P : A -> Prop) p (l : list A) :
  Forall P l -> Forall P (dropwhile p l).
Proof.
  induction 1 as [|x l Hx Hl IH]; simpl; [constructor|].
  destruct (p x); [exact IH | now constructor].
Qed.

Lemma Forall_strip_by (P : ascii -> Prop) p s :
  Forall P s -> Forall P (strip_by p s).
Proof.
  intros H. unfold strip_by, rstrip_by, lstrip_by.
  apply Forall_rev, Forall_dropwhile, Forall_rev, Forall_dropwhile, H.
Qed.

Lemma re_split_from_clean sep s : forall b,
  Forall (Forall (fun c => sep c = false)) (re_split_from sep b s).
Proof.
  induction s as [|c s IH]; intros b; simpl.
  - repeat constructor.
  - destruct (sep c) eqn:Hc.
    + destruct b; [apply IH|]. constructor; [constructor | apply IH].
    + specialize (IH false).
      destruct (re_split_from sep false s) as [|t ts].
      * repeat constructor. exact Hc.
      * inversion IH; subst. constructor; [now constructor | assumption].
Qed.

Lemma re_sub_ws_from_keeps (P : ascii -> Prop) s : forall b,
  P "-"%char -> Forall P s -> Forall P (re_sub_ws_from b s).
Proof.
  induction s as [|c s IH]; intros b Hd Hs; simpl; [constructor|].
  inversion Hs; subst.
  destruct (py_isspace c).
  - destruct b; [now apply IH|]. constructor; [exact Hd | now apply IH].
  - constructor; [assumption | now apply IH].
Qed.

Lemma re_sub_ws_from_no_space s : forall b,
  Forall (fun c => py_isspace c = false) (re_sub_ws_from b s).
Proof.
  induction s as [|c s IH]; intros b; simpl; [constructor|].
  destruct (py_isspace c) eqn:Hc.
  - destruct b; [apply IH|]. constructor; [reflexivity | apply IH].
  - constructor; [exact Hc | apply IH].
Qed.

Lemma normalize_tag_clean tok :
  Forall (fun c => is_tag_sep c = false) tok ->
  Forall (fun c => is_tag_sep c = false /\ py_isspace c = false)
    (normalize_tag tok).
Proof.
  intros H. unfold normalize_tag, strip_chars. apply Forall_strip_by.
  apply Forall_and.
  - apply re_sub_ws_from_keeps; [reflexivity|].
    now apply Forall_strip_by.
  - apply re_sub_ws_from_no_space.
Qed.

Lemma tag_candidates_clean raw t :
  In t (tag_candidates raw) ->
  t <> [] /\
  Forall (fun c => is_tag_sep c = false /\ py_isspace c = false) t.
Proof.
  unfold tag_candidates. intros H.
  apply filter_In in H as [H Hne]. split; [now destruct t|].
  apply in_map_iff in H as [u [<- Hu]].
  apply in_map_iff in Hu as [v [<- Hv]].
  apply filter_In in Hv as [Hv _].
  apply normalize_tag_clean, Forall_strip_by.
  pose proof (re_split_from_clean is_tag_sep raw false) as Hall.
  rewrite Forall_forall in Hall. now apply Hall.
Qed.

(** First-seen order *)

Lemma first_seen_In l x : In x (first_seen l) <-> In x l.
Proof.
  unfold first_seen. rewrite <- in_rev, nodup_In, <- in_rev. reflexivity.
Qed.

Lemma first_seen_NoDup l : NoDup (first_seen l).
Proof. unfold first_seen. apply NoDup_rev, NoDup_nodup. Qed.

Lemma first_seen_snoc l x :
  first_seen (l ++ [x])
  = if mem x (first_seen l) then first_seen l else first_seen l ++ [x].
Proof.
  unfold first_seen at 1. rewrite rev_app_distr.
  cbn [rev app nodup].
  destruct (in_dec str_eq_dec x (rev l)) as [Hin|Hn].
  - assert (Hm : mem x (first_seen l) = true).
    { apply mem_In. apply (proj2 (first_seen_In l x)).
      rewrite (in_rev l x). exact Hin. }
    now rewrite Hm.
  - assert (Hm : mem x (first_seen l) = false).
    { destruct (mem x (first_seen l)) eqn:E; [|reflexivity].
      apply mem_In in E. apply (proj1 (first_seen_In l x)) in E.
      exfalso. apply Hn. rewrite <- (in_rev l x). exact E. }
    now rewrite Hm.
Qed.

Lemma tag_steps tokens :
  let st := fold_left tag_step tokens ([], []) in
  fst st = first_seen (filter is_nonempty (map normalize_tag tokens))
  /\ forall x, In x (snd st) <-> In x (fst st).
Proof.
  induction tokens as [|t tokens IH] using rev_ind.
  - simpl. split; [reflexivity | tauto].
  - cbn zeta in *. rewrite fold_left_app. cbn [fold_left].
    destruct IH as [Hc Hs].
    rewrite map_app, filter_app. cbn [map filter].
    set (st := fold_left tag_step tokens ([], [])) in *.
    unfold tag_step. fold (normalize_tag t).
    destruct (is_nonempty (normalize_tag t)) eqn:Hne; cbn [andb].
    + rewrite first_seen_snoc, <- Hc.
      assert (Hm : mem (normalize_tag t) (snd st)
                   = mem (normalize_tag t) (fst st)).
      { destruct (mem (normalize_tag t) (fst st)) eqn:E.
        - apply mem_In. apply Hs. now apply mem_In.
        - destruct (mem (normalize_tag t) (snd st)) eqn:E'; [|reflexivity].
          apply mem_In, Hs, mem_In in E'. congruence. }
      rewrite Hm. destruct (mem (normalize_tag t) (fst st)); cbn [negb fst snd].
      * split; [reflexivity | exact Hs].
      * split; [reflexivity|]. intros x. simpl. rewrite in_app_iff, Hs.
        simpl. tauto.
    + rewrite app_nil_r. split; assumption.
Qed.

Lemma tags_of_text_eq raw :
  tags_of_text raw = join " " (first_seen (tag_candidates raw)).
Proof.
  unfold tags_of_text, tag_candidates.
  now rewrite (proj1 (tag_steps _)).
Qed.

(** Joining and splitting on a space *)

Lemma split_char_none c s : ~ In c s -> split_char c s = [s].
Proof.
  induction s as [|x s IH]; simpl; intros Hn; [reflexivity|].
  destruct (Ascii.eqb x c) eqn:E.
  - apply Ascii.eqb_eq in E. subst. exfalso. apply Hn. now left.
  - rewrite IH; [reflexivity|]. intros H. apply Hn. now right.
Qed.

Lemma split_char_app c s r :
  ~ In c s -> split_char c (s ++ c :: r) = s :: split_char c r.
Proof.
  induction s as [|x s IH]; simpl; intros Hn.
  - now rewrite Ascii.eqb_refl.
  - destruct (Ascii.eqb x c) eqn:E.
    + apply Ascii.eqb_eq in E. subst. exfalso. apply Hn. now left.
    + rewrite IH; [reflexivity|]. intros H. apply Hn. now right.
Qed.

Lemma split_join_space l :
  l <> [] -> Forall (fun t => ~ In " "%char t) l ->
  split_char " "%char (join " " l) = l.
Proof.
  induction l as [|x l IH]; intros Hne Hall; [contradiction|].
  inversion Hall; subst.
  destruct l as [|y l].
  - simpl. now apply split_char_none.
  - change (join " " (x :: y :: l)) with (x ++ " "%char :: join " " (y :: l)).
    rewrite split_char_app by assumption. f_equal.
    apply IH; [discriminate | assumption].
Qed.

Lemma In_join sep l c :
  In c (join sep l) -> In c sep \/ exists t, In t l /\ In c t.
Proof.
  induction l as [|x l IH]; simpl; [intros []|].
  destruct l as [|y l].
  - intros H. right. exists x. split; [now left | assumption].
  - intros H. apply in_app_or in H as [H|H].
    + right. exists x. split; [now left | assumption].
    + apply in_app_or in H as [H|H]; [now left|].
      destruct (IH H) as [Hs | [t [Ht Hc]]]; [now left|].
      right. exists t. split; [now right | assumption].
Qed.

(** C7: the tag string is the surviving tokens, without repetition and in
    first-seen order, joined by single spaces; no token is empty or holds
    a comma, a semicolon or white space, so the string holds no comma and no
    semicolon, and splitting it on the space gives the tokens back. *)
Theorem tags_from_cell_normalized (cell : nat) (d : doc) :
  let clean := first_seen (tag_candidates (get_text " " (contents_of cell d))) in
  tags_from_cell cell d = join " " clean
  /\ NoDup clean
  /\ (forall t, In t clean ->
        t <> [] /\
        forall c, In c t ->
          c <> ","%char /\ c <> ";"%char /\ py_isspace c = false)
  /\ (forall c, In c (tags_from_cell cell d) -> c <> ","%char /\ c <> ";"%char)
  /\ (clean <> [] -> split_char " "%char (tags_from_cell cell d) = clean).
Proof.
  cbn zeta. unfold tags_from_cell.
  set (raw := get_text " " (contents_of cell d)).
  rewrite tags_of_text_eq.
  assert (Htok : forall t, In t (first_seen (tag_candidates raw)) ->
            t <> [] /\
            forall c, In c t ->
              c <> ","%char /\ c <> ";"%char /\ py_isspace c = false).
  { intros t Ht. apply first_seen_In, tag_candidates_clean in Ht as [Hne Hall].
    split; [exact Hne|]. intros c Hc.
    rewrite Forall_forall in Hall. destruct (Hall c Hc) as [Hsep Hsp].
    unfold is_tag_sep in Hsep.
    apply orb_false_iff in Hsep as [Hsep _].
    apply orb_false_iff in Hsep as [Hcomma Hsemi].
    apply Ascii.eqb_neq in Hcomma, Hsemi. now repeat split. }
  split; [reflexivity|]. split; [apply first_seen_NoDup|].
  split; [exact Htok|]. split.
  - intros c Hc. apply In_join in Hc as [[<-|[]] | [t [Ht Hc]]].
    + split; discriminate.
    + destruct (Htok t Ht) as [_ H]. destruct (H c Hc) as [H1 [H2 _]].
      now split.
  - intros Hne. apply split_join_space; [exact Hne|].
    apply Forall_forall. intros t Ht Hin.
    destruct (Htok t Ht) as [_ H]. destruct (H _ Hin) as [_ [_ Hsp]].
    discriminate.
Qed.

(** * The table locator *)

Lemma find_none_iff name cs : find name cs = None <-> has_element name cs = false.
Proof.
  unfold find, find_all, has_element.
  induction (descendants cs) as [|n l IH]; simpl; [tauto|].
  destruct (str_eqb name (node_name n)); simpl; [split; discriminate | exact IH].
Qed.

Lemma find_some_has name cs n : find name cs = Some n -> has_element name cs = true.
Proof.
  intros H. destruct (has_element name cs) eqn:E; [reflexivity|].
  apply find_none_iff in E. congruence.
Qed.

Lemma in_required col :
  In col required ->
  col = list_ascii_of_string "id" \/ col = list_ascii_of_string "front"
  \/ col = list_ascii_of_string "back".
Proof.
  unfold required. simpl. intros [<-|[<-|[<-|[]]]]; auto.
Qed.

Lemma front_not_id h : str_eqb h "front" = true -> contains "notion-id" h = false.
Proof. intros H. apply str_eqb_eq in H. subst. reflexivity. Qed.

Lemma back_not_id h : str_eqb h "back" = true -> contains "notion-id" h = false.
Proof. intros H. apply str_eqb_eq in H. subst. reflexivity. Qed.

Lemma back_not_front h : str_eqb h "back" = true -> str_eqb h "front" = false.
Proof. intros H. apply str_eqb_eq in H. subst. reflexivity. Qed.

Lemma assign_role_get col cm h :
  In col required ->
  col_map_get col (assign_role cm h) = None
  <-> col_map_get col cm = None /\ maps_role col (snd h) = false.
Proof.
  intros Hc. destruct h as [idx name].
  apply in_required in Hc as [-> | [-> | ->]];
    unfold assign_role, maps_role, col_map_get; cbn [fst snd];
    destruct (contains "notion-id" name) eqn:E1;
    destruct (str_eqb name "front") eqn:E2;
    try (rewrite (front_not_id _ E2) in E1; discriminate);
    destruct (str_eqb name "back") eqn:E3;
    try (rewrite (back_not_id _ E3) in E1; discriminate);
    try (rewrite (back_not_front _ E3) in E2; discriminate);
    destruct (contains "tags" name) eqn:E4;
    cbn; intuition congruence.
Qed.

Lemma assign_roles_get col l : forall cm,
  In col required ->
  col_map_get col (fold_left assign_role l cm) = None
  <-> col_map_get col cm = None
      /\ forallb (fun h => negb (maps_role col (snd h))) l = true.
Proof.
  induction l as [|h l IH]; intros cm Hc; simpl.
  - tauto.
  - rewrite IH by assumption. rewrite assign_role_get by assumption.
    rewrite andb_true_iff, negb_true_iff. tauto.
Qed.

Lemma snd_enumerate {A} (l : list A) : map snd (enumerate l) = l.
Proof.
  unfold enumerate. generalize 0.
  induction l as [|x l IH]; intros n; simpl; [reflexivity|].
  now rewrite IH.
Qed.

Lemma forallb_map {A B} (f : A -> B) p l :
  forallb p (map f l) = forallb (fun x => p (f x)) l.
Proof. induction l as [|x l IH]; simpl; [reflexivity | now rewrite IH]. Qed.

Lemma build_col_map_get col headers :
  In col required ->
  col_map_get col (build_col_map headers) = None
  <-> forallb (fun h => negb (maps_role col h)) headers = true.
Proof.
  intros Hc. unfold build_col_map. rewrite assign_roles_get by assumption.
  rewrite <- (snd_enumerate headers) at 2. rewrite forallb_map.
  split; [tauto|]. intros H. split; [|exact H].
  apply in_required in Hc as [-> | [-> | ->]]; reflexivity.
Qed.

Lemma check_required_ok cols cm :
  check_required cols cm = Ok tt ->
  forall col, In col cols -> col_map_get col cm <> None.
Proof.
  induction cols as [|c cols IH]; simpl; intros H col Hin; [contradiction|].
  destruct (col_map_get c cm) eqn:E; [|discriminate].
  destruct Hin as [<-|Hin]; [congruence | now apply IH].
Qed.

Lemma check_required_raise cols cm e :
  check_required cols cm = Raise e ->
  exists col, In col cols /\ col_map_get col cm = None
              /\ e = RuntimeError (missing_column_msg col).
Proof.
  induction cols as [|c cols IH]; simpl; intros H; [discriminate|].
  destruct (col_map_get c cm) eqn:E.
  - destruct (IH H) as [col [Hin [Hn He]]]. exists col. auto.
  - injection H as <-. exists c. auto.
Qed.

Lemma required_roles col :
  col = list_ascii_of_string "id" \/ col = list_ascii_of_string "front"
  \/ col = list_ascii_of_string "back" ->
  In col required.
Proof.
  unfold required. cbn [map In]. intros [-> | [-> | ->]]; auto.
Qed.

(** C1: a document without a table, whose first table has no header
    section or no body section, or whose headers give no column to one of
    the roles id, front and back, makes the conversion raise a
    RuntimeError and leaves the output file as it was.  The message is one
    of [Could not find <table> in HTML export.],
    [Could not find <thead> in HTML table.],
    [Could not find <tbody> in HTML table.] and
    [Missing required column '<role>' in Notion table.], and the document
    does lack what it names; a role that the message names is one of id,
    front and back, and no header of the table gives it a column. *)
Theorem convert_file_structure_error
  (html_parser : str -> list node) (soup : doc)
  (out : option (list (list str))) (msg0 : str) :
  violates soup msg0 ->
  exists msg,
    violates soup msg
    /\ convert_file html_parser soup out = (Raise (RuntimeError msg), out)
    /\ (msg = list_ascii_of_string "Could not find <table> in HTML export."
        \/ msg = list_ascii_of_string "Could not find <thead> in HTML table."
        \/ msg = list_ascii_of_string "Could not find <tbody> in HTML table."
        \/ exists col table thead,
             msg = "Missing required column '" ++ col ++ "' in Notion table."
             /\ (col = list_ascii_of_string "id"
                 \/ col = list_ascii_of_string "front"
                 \/ col = list_ascii_of_string "back")
             /\ find "table" soup = Some table
             /\ find "thead" (node_children table) = Some thead
             /\ forallb (fun h => negb (maps_role col h))
                   (read_headers thead) = true).
Proof.
  intros Hv. unfold convert_file, parse_table.
  destruct (find "table" soup) as [table|] eqn:Ht.
  2:{ exists "Could not find <table> in HTML export.".
      split; [|split; [reflexivity | now left]].
      apply no_table. now apply find_none_iff. }
  destruct (find "thead" (node_children table)) as [thead|] eqn:Hh.
  2:{ exists "Could not find <thead> in HTML table.".
      split; [|split; [reflexivity | right; now left]].
      apply (no_thead soup table); [assumption | now apply find_none_iff]. }
  destruct (check_required required (build_col_map (read_headers thead)))
    as [[]|e] eqn:Hc; cbn [bind].
  2:{ apply check_required_raise in Hc as [col [Hin [Hn ->]]].
      assert (Hv' : violates soup
                ("Missing required column '" ++ col ++ "' in Notion table.")).
      { apply (no_column soup table thead col);
          [assumption | assumption | now apply in_required
          | now apply build_col_map_get]. }
      exists ("Missing required column '" ++ col ++ "' in Notion table.").
      split; [exact Hv'|]. split; [reflexivity|].
      right. right. right. exists col, table, thead.
      split; [reflexivity|]. split; [now apply in_required|].
      split; [reflexivity|]. split; [exact Hh|].
      now apply build_col_map_get. }
  destruct (find "tbody" (node_children table)) as [tbody|] eqn:Hb.
  2:{ exists "Could not find <tbody> in HTML table.".
      split; [|split; [reflexivity | right; right; now left]].
      apply (no_tbody soup table); [assumption | now apply find_none_iff]. }
  exfalso. inversion Hv as [H | t H1 H2 | t th col H1 H2 H3 H4 | t H1 H2]; subst.
  - apply find_none_iff in H. congruence.
  - assert (t = table) by congruence. subst.
    apply find_none_iff in H2. congruence.
  - assert (t = table) by congruence. subst.
    assert (th = thead) by congruence. subst.
    apply required_roles in H3.
    apply build_col_map_get in H4; [|assumption].
    now apply (check_required_ok _ _ Hc col H3).
  - assert (t = table) by congruence. subst.
    apply find_none_iff in H2. congruence.
Qed.

(** * The document tree *)

Lemma node_forest_ind (P : node -> Prop) :
  (forall s, P (Text s)) ->
  (forall i nm a cs, Forall P cs -> P (Elem i nm a cs)) ->
  forall n, P n.
Proof.
  intros Ht He. fix IH 1. intros [s | i nm a cs].
  - apply Ht.
  - apply He. induction cs as [|c cs IHcs]; constructor.
    + apply IH.
    + exact IHcs.
Qed.

Lemma descendants_app l1 l2 :
  descendants (l1 ++ l2) = descendants l1 ++ descendants l2.
Proof. unfold descendants. apply flat_map_app. Qed.

Lemma descendants_cons n l :
  descendants (n :: l) = elements_of n ++ descendants l.
Proof. reflexivity. Qed.

Lemma sanitize_tree_app l1 l2 :
  sanitize_tree (l1 ++ l2) = sanitize_tree l1 ++ sanitize_tree l2.
Proof.
  unfold sanitize_tree. now rewrite !map_app, flat_map_app, map_app.
Qed.

Lemma sanitize_tree_cons n l :
  sanitize_tree (n :: l) = sanitize_tree [n] ++ sanitize_tree l.
Proof. apply (sanitize_tree_app [n] l). Qed.

Lemma sanitize_tree_text s : sanitize_tree [Text s] = [Text s].
Proof. reflexivity. Qed.

Lemma sanitize_tree_elem i nm a kids :
  sanitize_tree [Elem i nm a kids]
  = if mem (fst (loops_body nm a)) ALLOWED_TAGS
    then [Elem i (fst (loops_body nm a))
            (snd (style_body (fst (loops_body nm a)) (snd (loops_body nm a))))
            (sanitize_tree kids)]
    else sanitize_tree kids.
Proof.
  unfold sanitize_tree, loops_body.
  cbn [map for_each_element flat_map unwrap_disallowed].
  rewrite app_nil_r.
  set (b1 := mark_body nm a).
  set (b2 := span_body (fst b1) (snd b1)).
  set (b3 := anchor_body (fst b2) (snd b2)).
  destruct (mem (fst b3) ALLOWED_TAGS); [|reflexivity].
  cbn [map for_each_element].
  f_equal. f_equal. unfold style_body. now destruct (dict_get "style" (snd b3)).
Qed.

(** * Links *)

Lemma loops_body_link a : loops_body "a" a = ("a" : str, anchor_attrs a).
Proof. reflexivity. Qed.

Lemma loops_body_not_link nm a :
  str_eqb nm "a" = false -> str_eqb (fst (loops_body nm a)) "a" = false.
Proof.
  intros Hn. unfold loops_body, mark_body.
  destruct (str_eqb nm "mark"); cbn [fst snd].
  - reflexivity.
  - unfold span_body. destruct (str_eqb nm "span"); cbn [fst snd];
      unfold anchor_body; now rewrite Hn.
Qed.

Lemma anchor_attrs_no_style a : dict_get "style" (anchor_attrs a) = None.
Proof.
  unfold anchor_attrs. destruct (dict_get "href" a) as [v|]; [|reflexivity].
  now destruct (is_nonempty (attr_text v)).
Qed.

Lemma style_body_anchor nm a : snd (style_body nm (anchor_attrs a)) = anchor_attrs a.
Proof. unfold style_body. now rewrite anchor_attrs_no_style. Qed.

Lemma links_of_forest (cs : list node) :
  Forall (fun n =>
    map oid_attrs (filter is_link (descendants (sanitize_tree [n])))
    = map (fun e => (node_oid e, anchor_attrs (node_attrs e)))
        (filter is_link (elements_of n))) cs ->
  map oid_attrs (filter is_link (descendants (sanitize_tree cs)))
  = map (fun e => (node_oid e, anchor_attrs (node_attrs e)))
      (filter is_link (descendants cs)).
Proof.
  induction 1 as [|n cs Hn _ IH]; [reflexivity|].
  rewrite sanitize_tree_cons, descendants_app, descendants_cons.
  rewrite !filter_app, !map_app. now rewrite Hn, IH.
Qed.

Lemma is_link_elem i nm a kids : is_link (Elem i nm a kids) = str_eqb nm "a".
Proof. reflexivity. Qed.

Lemma descendants_single i nm a kids :
  descendants [Elem i nm a kids] = Elem i nm a kids :: descendants kids.
Proof. unfold descendants. cbn [flat_map elements_of]. now rewrite app_nil_r. Qed.

Lemma links_of_node (n : node) :
  map oid_attrs (filter is_link (descendants (sanitize_tree [n])))
  = map (fun e => (node_oid e, anchor_attrs (node_attrs e)))
      (filter is_link (elements_of n)).
Proof.
  induction n as [s | i nm a kids IH] using node_forest_ind; [reflexivity|].
  apply links_of_forest in IH.
  rewrite sanitize_tree_elem.
  change (elements_of (Elem i nm a kids))
    with (Elem i nm a kids :: descendants kids).
  cbn [filter]. rewrite is_link_elem.
  destruct (str_eqb nm "a") eqn:Hn.
  - apply str_eqb_eq in Hn. subst nm. rewrite loops_body_link.
    cbn [fst snd]. rewrite style_body_anchor.
    change (mem (list_ascii_of_string "a") ALLOWED_TAGS) with true. cbv iota.
    rewrite descendants_single. cbn [filter]. rewrite is_link_elem.
    change (str_eqb (list_ascii_of_string "a") "a") with true. cbv iota.
    cbn [map]. now rewrite IH.
  - pose proof (loops_body_not_link nm a Hn) as Hl.
    destruct (mem (fst (loops_body nm a)) ALLOWED_TAGS); [|exact IH].
    rewrite descendants_single. cbn [filter]. rewrite is_link_elem, Hl.
    exact IH.
Qed.

(** C9 (amended): the link elements of a sanitized cell are the link
    elements of the cell, in the same order, each with its attributes
    reduced to the [href] attribute alone, value unchanged, when it has one
    with a non-empty value, and to no attribute at all when it has no [href]
    or an empty one. *)
Theorem links_keep_href_only (cs : list node) :
  map oid_attrs (filter is_link (descendants (sanitize_tree cs)))
  = map (fun e => (node_oid e, anchor_attrs (node_attrs e)))
      (filter is_link (descendants cs))
  /\ (forall a v, dict_get "href" a = Some v -> attr_text v <> [] ->
        anchor_attrs a = [("href" : str, v)])
  /\ (forall a v, dict_get "href" a = Some v -> attr_text v = [] ->
        anchor_attrs a = [])
  /\ (forall a, dict_get "href" a = None -> anchor_attrs a = []).
Proof.
  split.
  - apply links_of_forest. apply Forall_forall. intros n _.
    apply links_of_node.
  - unfold anchor_attrs. repeat split.
    + intros a v -> Hv. destruct (attr_text v); [contradiction | reflexivity].
    + intros a v -> Hv. now rewrite Hv.
    + now intros a ->.
Qed.

(** * Background colors *)

Lemma strip_background_eq style :
  strip_background style
  = join ";" (filter kept_declaration (split_char ";"%char style)).
Proof.
  unfold strip_background. f_equal.
  induction (split_char ";"%char style) as [|s l IH]; [reflexivity|].
  cbn [filter]. unfold kept_declaration at 1.
  destruct (startswith "background-color" (strip s)); cbn [negb andb filter].
  - exact IH.
  - destruct (is_nonempty (strip s)); [now rewrite IH | exact IH].
Qed.

Lemma strip_background_only style :
  only_background style = true -> strip_background style = [].
Proof.
  rewrite strip_background_eq. unfold only_background.
  induction (split_char ";"%char style) as [|s l IH]; [reflexivity|].
  cbn [forallb filter]. intros H. apply andb_true_iff in H as [Hs Hl].
  unfold kept_declaration at 1.
  destruct (startswith "background-color" (strip s)); cbn [negb andb].
  - now apply IH.
  - cbn [orb] in Hs. apply negb_true_iff in Hs. rewrite Hs. now apply IH.
Qed.

Lemma allowed_not_mark nm :
  mem nm ALLOWED_TAGS = true -> str_eqb nm "mark" = false.
Proof.
  intros H. destruct (str_eqb nm "mark") eqn:E; [|reflexivity].
  apply str_eqb_eq in E. subst. discriminate.
Qed.

Lemma loops_body_styled nm v :
  str_eqb nm "mark" = false -> str_eqb nm "a" = false ->
  loops_body nm [("style" : str, v)] = (nm, [("style" : str, v)]).
Proof.
  intros Hm Ha. unfold loops_body, mark_body. rewrite Hm. cbn [fst snd].
  unfold span_body. destruct (str_eqb nm "span"); cbn [fst snd];
    unfold anchor_body; now rewrite Ha.
Qed.

(** C3 (amended): an element whose only attribute is a style holding
    nothing but background-color declarations keeps its style attribute,
    with the empty string as value: the style is rewritten to the remaining
    declarations joined by [;] and is not dropped when none remains.  This
    holds for each allowed element other than a link, and for a mark, which
    comes out as a span. *)
Theorem background_only_style_left_empty
  (i : nat) (nm : str) (style : str) (kids : list node) :
  only_background style = true ->
  strip_background style = []
  /\ (mem nm ALLOWED_TAGS = true -> nm <> list_ascii_of_string "a" ->
        sanitize_tree [Elem i nm [("style" : str, AStr style)] kids]
        = [Elem i nm [("style" : str, AStr [])] (sanitize_tree kids)])
  /\ sanitize_tree [Elem i "mark" [("style" : str, AStr style)] kids]
     = [Elem i "span" [("style" : str, AStr [])] (sanitize_tree kids)].
Proof.
  intros Hb. pose proof (strip_background_only style Hb) as Hs.
  split; [exact Hs|]. split.
  - intros Hal Hna. rewrite sanitize_tree_elem.
    rewrite loops_body_styled;
      [| now apply allowed_not_mark | now apply str_eqb_neq].
    cbn [fst snd]. rewrite Hal. unfold style_body.
    cbn [dict_get]. change (str_eqb (list_ascii_of_string "style") "style") with true.
    cbv iota. cbn [snd attr_text dict_set].
    change (str_eqb (list_ascii_of_string "style") "style") with true.
    cbv iota. now rewrite Hs.
  - rewrite sanitize_tree_elem.
    change (loops_body "mark" [("style" : str, AStr style)])
      with ("span" : str, [("style" : str, AStr style)]).
    cbn [fst snd].
    change (mem (list_ascii_of_string "span") ALLOWED_TAGS) with true.
    cbv iota. unfold style_body.
    cbn [dict_get]. change (str_eqb (list_ascii_of_string "style") "style") with true.
    cbv iota. cbn [snd attr_text dict_set].
    change (str_eqb (list_ascii_of_string "style") "style") with true.
    cbv iota. now rewrite Hs.
Qed.

(** * Plain-text mode *)

Lemma rstrip_by_last p s :
  rstrip_by p s = [] \/ exists t y, rstrip_by p s = t ++ [y] /\ p y = false.
Proof.
  unfold rstrip_by. destruct (dropwhile p (rev s)) as [|y r] eqn:E.
  - now left.
  - right. exists (rev r), y. split; [reflexivity|].
    now apply dropwhile_head in E.
Qed.

Lemma strip_by_fixed p s x t u y :
  s = x :: t -> s = u ++ [y] -> p x = false -> p y = false ->
  strip_by p s = s.
Proof.
  intros Hx Hy Hpx Hpy. unfold strip_by, lstrip_by.
  assert (Hl : dropwhile p s = s) by (rewrite Hx; simpl; now rewrite Hpx).
  rewrite Hl, Hy. rewrite rstrip_by_app_solid by assumption.
  reflexivity.
Qed.

Lemma strip_by_ends p s : strip_by p s = [] \/ solid_ends p (strip_by p s).
Proof.
  destruct (strip_by p s) as [|x t] eqn:E; [now left|]. right.
  pose proof (strip_by_head p s x t E) as Hx.
  unfold strip_by in E.
  destruct (rstrip_by_last p (lstrip_by p s)) as [H | [u [y [H Hy]]]];
    [congruence|].
  exists x, t, u, y. repeat split; try assumption. congruence.
Qed.

Lemma solid_ends_join p sep (l : list str) :
  l <> [] -> Forall (solid_ends p) l -> solid_ends p (join sep l).
Proof.
  induction l as [|a l IH]; intros Hne Hall; [contradiction|].
  inversion Hall as [|? ? Ha Hl]; subst.
  destruct l as [|b l]; [exact Ha|].
  change (join sep (a :: b :: l)) with (a ++ sep ++ join sep (b :: l)).
  destruct Ha as [x [t [_ [_ [Hx [_ [Hpx _]]]]]]].
  destruct (IH ltac:(discriminate) Hl) as [_ [_ [u [y [_ [Hy [_ Hpy]]]]]]].
  exists x, (t ++ sep ++ join sep (b :: l)), (a ++ sep ++ u), y.
  repeat split; try assumption.
  - now rewrite Hx.
  - rewrite Hy. now rewrite <- !app_assoc.
Qed.

Lemma get_text_trimmed cs : strip (get_text " " cs) = get_text " " cs.
Proof.
  unfold get_text.
  set (pieces := filter is_nonempty (map strip (flat_map strings_of cs))).
  assert (Hall : Forall (solid_ends py_isspace) pieces).
  { apply Forall_forall. intros s Hs. apply filter_In in Hs as [Hs Hne].
    apply in_map_iff in Hs as [s0 [<- _]].
    destruct (strip_by_ends py_isspace s0) as [H|H]; [|exact H].
    unfold strip in Hne. now rewrite H in Hne. }
  destruct pieces as [|a l] eqn:E; [reflexivity|].
  destruct (solid_ends_join py_isspace " " (a :: l) ltac:(discriminate) Hall)
    as [x [t [u [y [Hx [Hy [Hpx Hpy]]]]]]].
  now apply (strip_by_fixed py_isspace _ x t u y).
Qed.

(** C10: in plain-text mode the sanitizer returns the text nodes below the
    cell, each stripped, the empty ones dropped, joined by single spaces,
    a text with no white space at either end, and leaves the document as it
    was, so that a rich-mode pass afterwards gives what it gives on the
    document before. *)
Theorem plain_text_leaves_document
  (html_parser : str -> list node) (cell : nat) (d : doc) :
  snd (sanitize_inline_html html_parser cell true d) = d
  /\ fst (sanitize_inline_html html_parser cell true d)
     = join " " (filter is_nonempty
                   (map strip (flat_map strings_of (contents_of cell d))))
  /\ strip (fst (sanitize_inline_html html_parser cell true d))
     = fst (sanitize_inline_html html_parser cell true d)
  /\ forall cell',
       sanitize_inline_html html_parser cell' false
         (snd (sanitize_inline_html html_parser cell true d))
       = sanitize_inline_html html_parser cell' false d.
Proof.
  repeat split. apply get_text_trimmed.
Qed.

(** * Fenced code *)

Lemma startswith_cons x p y s :
  startswith (x :: p) (y :: s) = Ascii.eqb x y && startswith p s.
Proof. unfold startswith. simpl. now destruct (Ascii.eqb x y). Qed.

Lemma startswith_nil s : startswith [] s = true.
Proof. reflexivity. Qed.



Lemma strip_prefix_app p s : strip_prefix p (p ++ s) = Some s.
Proof.
  induction p as [|x p IH]; simpl; [reflexivity|].
  now rewrite Ascii.eqb_refl.
Qed.

Lemma strip_prefix_some p : forall s r, strip_prefix p s = Some r -> s = p ++ r.
Proof.
  induction p as [|x p IH]; intros s r H.
  - destruct s; simpl in H; injection H as <-; reflexivity.
  - destruct s as [|y s]; [discriminate|]. simpl in H.
    destruct (Ascii.eqb x y) eqn:E; [|discriminate].
    apply Ascii.eqb_eq in E. subst. simpl. f_equal. now apply IH.
Qed.

Lemma contains_cons p c s :
  contains p (c :: s) = startswith p (c :: s) || contains p s.
Proof. reflexivity. Qed.




Lemma find_close_unfold s :
  find_close s
  = if startswith fence s then Some []
    else match s with
         | [] => None
         | c :: s' =>
             match find_close s' with
             | Some inner => Some (c :: inner)
             | None => None
             end
         end.
Proof. destruct s; reflexivity. Qed.

Lemma find_close_none s : contains fence s = false -> find_close s = None.
Proof.
  induction s as [|c s IH]; intros H; rewrite find_close_unfold.
  - reflexivity.
  - rewrite contains_cons in H. apply orb_false_iff in H as [H1 H2].
    rewrite H1, IH by assumption. reflexivity.
Qed.

Lemma half_fence_length : length (list_ascii_of_string "``") = 2.
Proof. reflexivity. Qed.




Section Fences.

Variable html_parser : str -> list node.

Lemma fence_sub_from_0 c s :
  fence_sub_from html_parser 0 (c :: s)
  = match strip_prefix fence (c :: s) with
    | Some rest =>
        match find_close rest with
        | Some inner =>
            fence_replacer html_parser inner
            ++ fence_sub_from html_parser (length inner + 5) s
        | None => c :: fence_sub_from html_parser 0 s
        end
    | None => c :: fence_sub_from html_parser 0 s
    end.
Proof. reflexivity. Qed.




Lemma fence_sub_no_close s :
  (forall a r, s = a ++ fence ++ r -> contains fence r = false) ->
  fence_sub html_parser s = s.
Proof.
  unfold fence_sub. induction s as [|c s IH]; intros H; [reflexivity|].
  assert (Hs : fence_sub_from html_parser 0 s = s).
  { apply IH. intros a r ->. now apply (H (c :: a) r). }
  rewrite fence_sub_from_0, Hs.
  destruct (strip_prefix fence (c :: s)) as [rest|] eqn:E; [|reflexivity].
  apply strip_prefix_some in E.
  rewrite (find_close_none rest); [reflexivity|].
  now apply (H [] rest).
Qed.

End Fences.

(** Every text either has no fence with a fence after it, or splits at its
    first fence and the first fence after that. *)

Lemma no_fence_starts_nil : no_fence_starts_in [] = true.
Proof. reflexivity. Qed.









(** The text nodes and the elements under a loop over elements *)

Lemma strings_of_for_each body (n : node) :
  strings_of (for_each_element body n) = strings_of n.
Proof.
  induction n as [s | i nm a kids IH] using node_forest_ind; [reflexivity|].
  cbn [for_each_element strings_of].
  induction IH as [|k kids Hk _ IHk]; [reflexivity|].
  cbn [map flat_map]. now rewrite Hk, IHk.
Qed.

Lemma strings_of_forest_for_each body (cs : list node) :
  flat_map strings_of (map (for_each_element body) cs)
  = flat_map strings_of cs.
Proof.
  induction cs as [|c cs IH]; [reflexivity|].
  cbn [map flat_map]. now rewrite strings_of_for_each, IH.
Qed.

Lemma elements_of_for_each body (n : node) :
  map (fun e => (node_name e, node_attrs e))
    (elements_of (for_each_element body n))
  = map (fun e => body (node_name e) (node_attrs e)) (elements_of n).
Proof.
  induction n as [s | i nm a kids IH] using node_forest_ind; [reflexivity|].
  cbn [for_each_element elements_of map node_name node_attrs].
  rewrite <- surjective_pairing. f_equal.
  induction IH as [|k kids Hk _ IHk]; [reflexivity|].
  cbn [map flat_map]. rewrite !map_app. now rewrite Hk, IHk.
Qed.

Lemma descendants_for_each body (cs : list node) :
  map (fun e => (node_name e, node_attrs e))
    (descendants (map (for_each_element body) cs))
  = map (fun e => body (node_name e) (node_attrs e)) (descendants cs).
Proof.
  unfold descendants. induction cs as [|c cs IH]; [reflexivity|].
  cbn [map flat_map]. rewrite !map_app. now rewrite elements_of_for_each, IH.
Qed.



(** * The line breaks around the fences *)

Lemma startswith_single c x s : startswith [c] (x :: s) = Ascii.eqb c x.
Proof. rewrite startswith_cons, startswith_nil. apply andb_true_r. Qed.

Lemma replace_from_char_gone c new :
  ~ In c new -> forall s skip, ~ In c (replace_from [c] new skip s).
Proof.
  intros Hnew. induction s as [|x s IH]; intros skip; [intros []|].
  destruct skip as [|k]; cbn [replace_from]; [|apply IH].
  rewrite startswith_single. destruct (Ascii.eqb c x) eqn:E.
  - intros H. apply in_app_or in H as [H|H]; [now apply Hnew|].
    now apply (IH _ H).
  - apply Ascii.eqb_neq in E. intros [H|H]; [congruence|].
    now apply (IH _ H).
Qed.

Lemma replace_from_In c old new : forall s skip,
  In c (replace_from old new skip s) -> In c s \/ In c new.
Proof.
  induction s as [|x s IH]; intros skip H; [contradiction|].
  destruct skip as [|k]; cbn [replace_from] in H.
  - destruct (startswith old (x :: s)).
    + apply in_app_or in H as [H|H]; [now right|].
      destruct (IH _ H) as [H'|H']; [left; now right | now right].
    + destruct H as [<-|H]; [left; now left|].
      destruct (IH _ H) as [H'|H']; [left; now right | now right].
  - destruct (IH _ H) as [H'|H']; [left; now right | now right].
Qed.

Lemma skipn_length_app {A} (a b : list A) : skipn (length a) (a ++ b) = b.
Proof. induction a as [|x a IH]; [reflexivity | exact IH]. Qed.

Lemma replace_char_back old c :
  old <> [] -> forall s skip,
  ~ In c s ->
  replace_from [c] old 0 (replace_from old [c] skip s) = skipn skip s.
Proof.
  intros Hold. induction s as [|x s IH]; intros skip Hc.
  - now destruct skip.
  - assert (Hs : ~ In c s) by (intros H; apply Hc; now right).
    assert (Hx : c <> x) by (intros ->; apply Hc; now left).
    destruct skip as [|k]; cbn [replace_from skipn]; [|now apply IH].
    destruct (startswith old (x :: s)) eqn:E.
    + cbn [app replace_from]. rewrite startswith_single, Ascii.eqb_refl.
      cbn [length Nat.sub]. rewrite (IH _ Hs).
      unfold startswith in E.
      destruct (strip_prefix old (x :: s)) as [r|] eqn:Er; [|discriminate].
      apply strip_prefix_some in Er.
      destruct old as [|o old']; [contradiction|].
      cbn [app] in Er. injection Er as -> ->.
      cbn [length Nat.sub]. rewrite Nat.sub_0_r.
      now rewrite skipn_length_app.
    + cbn [replace_from]. rewrite startswith_single.
      apply Ascii.eqb_neq in Hx. rewrite Hx. f_equal.
      now apply (IH 0 Hs).
Qed.

Lemma contains_In p c s : In c p -> contains p s = true -> In c s.
Proof.
  intros Hp. induction s as [|x s IH].
  - destruct p; [contradiction | discriminate].
  - rewrite contains_cons. intros H. apply orb_true_iff in H as [H|H].
    + unfold startswith in H.
      destruct (strip_prefix p (x :: s)) as [r|] eqn:E; [|discriminate].
      apply strip_prefix_some in E. rewrite E. apply in_or_app. now left.
    + right. now apply IH.
Qed.















(** * The loop over the rows *)

Lemma nth_error_nth_default (l : list nat) k :
  k < length l -> nth_error l k = Some (nth k l 0).
Proof.
  revert k. induction l as [|x l IH]; intros k Hk; [simpl in Hk; lia|].
  destruct k as [|k]; [reflexivity|]. simpl. apply IH. simpl in Hk. lia.
Qed.

Lemma cell_at_has tds key cm :
  has_cell tds (col_map_get key cm) = true ->
  cell_at tds key cm = Ok (cell_of tds (col_map_get key cm)).
Proof.
  unfold cell_at, has_cell, cell_of.
  destruct (col_map_get key cm) as [k|]; [|discriminate].
  intros Hk. apply Nat.ltb_lt in Hk.
  now rewrite nth_error_nth_default.
Qed.

Section RowLoop.

Variable html_parser : str -> list node.
Variable cm : col_map.

Lemma convert_row_skip d tr :
  row_cells d tr = [] -> convert_row html_parser cm d tr = Ok (d, None).
Proof. unfold convert_row, row_cells. now intros ->. Qed.

Lemma convert_row_emit d tr :
  row_cells d tr <> [] -> covers cm (row_cells d tr) = true ->
  convert_row html_parser cm d tr
  = Ok (row_after html_parser cm d (row_cells d tr),
        Some (row_record html_parser cm d (row_cells d tr))).
Proof.
  intros Hne Hc. unfold convert_row. fold (row_cells d tr).
  destruct (row_cells d tr) as [|td tds] eqn:E; [contradiction|].
  unfold covers in Hc.
  apply andb_true_iff in Hc as [Hc Ht].
  apply andb_true_iff in Hc as [Hc Hb].
  apply andb_true_iff in Hc as [Hi Hf].
  rewrite (cell_at_has (td :: tds) "id" cm Hi). cbn [bind].
  rewrite (cell_at_has (td :: tds) "front" cm Hf). cbn [bind].
  rewrite (cell_at_has (td :: tds) "back" cm Hb). cbn [bind].
  unfold row_after, row_record.
  change (col_map_get "id" cm) with (cm_id cm).
  change (col_map_get "front" cm) with (cm_front cm).
  change (col_map_get "back" cm) with (cm_back cm).
  destruct (cm_tags cm) as [k|] eqn:Etag; [|reflexivity].
  assert (Htag : has_cell (td :: tds) (col_map_get "tags" cm) = true).
  { change (col_map_get "tags" cm) with (cm_tags cm). now rewrite Etag. }
  rewrite (cell_at_has (td :: tds) "tags" cm Htag). cbn [bind].
  change (col_map_get "tags" cm) with (cm_tags cm). rewrite Etag.
  reflexivity.
Qed.

Lemma convert_rows_ready trs : forall d,
  rows_ready html_parser cm d trs ->
  exists d' rs,
    convert_rows html_parser cm d trs = Ok (d', rs)
    /\ rows_run html_parser cm d trs d' rs.
Proof.
  induction trs as [|tr trs IH]; intros d Hr.
  - exists d, []. split; [reflexivity | constructor].
  - cbn [rows_ready] in Hr. cbn [convert_rows].
    destruct Hr as [[He Hr] | [Hne [Hc Hr]]].
    + rewrite (convert_row_skip d tr He). cbn [bind fst snd].
      destruct (IH d Hr) as [d' [rs [Hrun Hrel]]].
      exists d', rs. rewrite Hrun. cbn [bind fst snd].
      split; [reflexivity | now apply run_skip].
    + rewrite (convert_row_emit d tr Hne Hc). cbn [bind fst snd].
      destruct (IH _ Hr) as [d' [rs [Hrun Hrel]]].
      exists d', (row_record html_parser cm d (row_cells d tr) :: rs).
      rewrite Hrun. cbn [bind fst snd].
      split; [reflexivity | now apply run_emit].
Qed.

Lemma rows_run_length d trs d' rs :
  rows_run html_parser cm d trs d' rs -> length rs <= length trs.
Proof. induction 1; simpl; lia. Qed.

End RowLoop.

(** C2 (amended): when the table is located and has a body, and every row
    of the body, in the document as the loop finds it, has no cell or has a
    cell for each mapped column, the conversion raises nothing and writes
    the header row and the records of the rows: none for a row without
    cells, one for a row with cells, made of the text of its id cell, its
    front cell in plain-text mode, its back cell in rich mode and its
    normalized tags cell (the empty string when no column has the tags
    role), in the order of the rows. *)
Theorem convert_file_rows
  (html_parser : str -> list node) (soup : doc)
  (out : option (list (list str)))
  (table tbody : node) (cm : col_map) :
  parse_table soup = Ok (table, cm) ->
  find "tbody" (node_children table) = Some tbody ->
  rows_ready html_parser cm soup
    (map node_oid (find_all "tr" (node_children tbody))) ->
  exists d' rs,
    rows_run html_parser cm soup
      (map node_oid (find_all "tr" (node_children tbody))) d' rs
    /\ length rs <= length (find_all "tr" (node_children tbody))
    /\ convert_file html_parser soup out
       = (Ok tt, Some (fieldnames :: map record_fields rs)).
Proof.
  intros Hp Hb Hr.
  destruct (convert_rows_ready html_parser cm _ soup Hr)
    as [d' [rs [Hrun Hrel]]].
  exists d', rs. split; [exact Hrel|]. split.
  - apply rows_run_length in Hrel. now rewrite length_map in Hrel.
  - unfold convert_file. rewrite Hp, Hb, Hrun. reflexivity.
Qed.

(** * The statements at sample inputs *)

(** C1 at the table without a Back column. *)
Lemma convert_file_structure_error_witness :
  violates no_back_doc "Missing required column 'back' in Notion table."
  /\ convert_file plain_parser no_back_doc None
     = (Raise (RuntimeError "Missing required column 'back' in Notion table."),
        None)
  /\ exists msg,
       violates no_back_doc msg
       /\ convert_file plain_parser no_back_doc None
          = (Raise (RuntimeError msg), None).
Proof.
  assert (H : violates no_back_doc
                "Missing required column 'back' in Notion table.").
  { apply (no_column no_back_doc no_back_table no_back_thead "back").
    - reflexivity.
    - reflexivity.
    - right. now right.
    - reflexivity. }
  split; [exact H|]. split; [reflexivity|].
  destruct (convert_file_structure_error plain_parser no_back_doc None _ H)
    as [msg [Hv [Hrun _]]].
  exists msg. now split.
Defined.

(** C2 as stated fails: a row with one cell in a table of three columns
    makes the conversion raise, and nothing is written. *)
Lemma short_row_raises :
  row_cells short_row_doc 8 = [9]
  /\ convert_file plain_parser short_row_doc None = (Raise IndexError, None).
Proof. split; reflexivity. Qed.

(** A row inside a back cell has its cells when the conversion starts and
    none when the loop reaches it: it gives no record. *)
Example nested_row_left_out :
  row_cells nested_row_doc 13 = [14; 15; 16]
  /\ row_cells
       (row_after plain_parser (mkColMap (Some 0) (Some 1) (Some 2) None)
          nested_row_doc (row_cells nested_row_doc 8)) 13 = []
  /\ convert_file plain_parser nested_row_doc None
     = (Ok tt,
        Some [fieldnames;
              [("1" : str); ("q" : str); ("xyz" : str); ([] : str)]]).
Proof. repeat split; reflexivity. Qed.

(** C2 (amended) at the document of the test. *)
Lemma convert_file_rows_witness :
  parse_table smoke_doc = Ok (smoke_table, smoke_col_map)
  /\ find "tbody" (node_children smoke_table) = Some smoke_tbody
  /\ rows_ready plain_parser smoke_col_map smoke_doc
       (map node_oid (find_all "tr" (node_children smoke_tbody)))
  /\ exists d' rs,
       rows_run plain_parser smoke_col_map smoke_doc
         (map node_oid (find_all "tr" (node_children smoke_tbody))) d' rs
       /\ length rs <= length (find_all "tr" (node_children smoke_tbody))
       /\ convert_file plain_parser smoke_doc None
          = (Ok tt, Some (fieldnames :: map record_fields rs)).
Proof.
  assert (Hp : parse_table smoke_doc = Ok (smoke_table, smoke_col_map))
    by reflexivity.
  assert (Hb : find "tbody" (node_children smoke_table) = Some smoke_tbody)
    by reflexivity.
  assert (Hr : rows_ready plain_parser smoke_col_map smoke_doc
                 (map node_oid (find_all "tr" (node_children smoke_tbody)))).
  { right. split; [discriminate|]. split; [reflexivity | exact I]. }
  split; [exact Hp|]. split; [exact Hb|]. split; [exact Hr|].
  exact (convert_file_rows plain_parser smoke_doc None smoke_table smoke_tbody
           smoke_col_map Hp Hb Hr).
Defined.

(** C3 as stated fails: the span keeps a style attribute, an empty one. *)
Lemma background_only_style_kept :
  sanitize_tree (contents_of 1 background_cell)
  = [elem 2 "span" [style_attr ""] [text "x"]]
  /\ fst (sanitize_inline_html plain_parser 1 false background_cell)
     = "<span style=" ++ [dquote; dquote] ++ ">x</span>".
Proof. split; reflexivity. Qed.

(** C3 (amended) at that span. *)
Lemma background_only_style_left_empty_witness :
  only_background "background-color:red" = true
  /\ strip_background "background-color:red" = []
  /\ sanitize_tree [elem 2 "span" [style_attr "background-color:red"] [text "x"]]
     = [elem 2 "span" [style_attr ""] (sanitize_tree [text "x"])].
Proof.
  split; [reflexivity|].
  destruct (background_only_style_left_empty 2 "span" "background-color:red"
              [text "x"] eq_refl) as [H1 [H2 _]].
  split; [exact H1|].
  apply H2; [reflexivity | discriminate].
Defined.

(** C4 as stated fails: a key with a digit is not recognized and the token
    stays. *)
Lemma digit_key_not_removed :
  convert_color_classes_to_inline [class_attr ["highlight-red2"]]
  = [class_attr ["highlight-red2"]].
Proof. reflexivity. Qed.

(** C4 (amended) at an element with a color class, a background class and
    another class. *)
Lemma color_classes_resolved_witness :
  dict_get "class" [class_attr ["highlight-red"; "note"; "block-color-blue_background"]]
  = Some (AList [("highlight-red" : str); ("note" : str);
                 ("block-color-blue_background" : str)])
  /\ convert_color_classes_to_inline
       [class_attr ["highlight-red"; "note"; "block-color-blue_background"]]
     = [class_attr ["note"]; style_attr "color:red"].
Proof.
  split; [reflexivity|].
  destruct (color_classes_resolved
              [class_attr ["highlight-red"; "note"; "block-color-blue_background"]]
              "highlight-red" [("note" : str); ("block-color-blue_background" : str)]
              eq_refl) as [H _].
  rewrite H. reflexivity.
Defined.

(** C6 as stated fails: the fragment is there twice after two merges. *)
Lemma merge_style_twice_duplicates :
  merge_style [] "color:red" = [style_attr "color:red"]
  /\ merge_style (merge_style [] "color:red") "color:red"
     = [style_attr "color:red;color:red"].
Proof. split; reflexivity. Qed.

(** C6 (amended) at that fragment. *)
Lemma merge_style_appends_witness :
  existsb solid_char "color:red" = true
  /\ get_style (merge_style (merge_style [] "color:red") "color:red")
     = existing_style (merge_style [] "color:red") ++ ";" ++ "color:red"
  /\ merge_style (merge_style [] "color:red") "color:red"
     <> merge_style [] "color:red".
Proof.
  split; [reflexivity|].
  destruct (merge_style_appends [] "color:red" eq_refl) as [_ H].
  exact H.
Defined.

(** C9 as stated fails: a link with an empty [href] is left without it. *)
Lemma empty_href_dropped :
  dict_has "href" (node_attrs empty_href_link) = true
  /\ sanitize_tree [empty_href_link] = [elem 1 "a" [] [text "here"]].
Proof. split; reflexivity. Qed.


(** * Further properties of the converter *)

(** * What rich sanitization keeps of the tree *)

Lemma strings_of_unwrap (n : node) :
  flat_map strings_of (unwrap_disallowed n) = strings_of n.
Proof.
  induction n as [s | i nm a kids IH] using node_forest_ind; [reflexivity|].
  assert (Hk : flat_map strings_of (flat_map unwrap_disallowed kids)
               = flat_map strings_of kids).
  { induction IH as [|k kids Hk _ IHk]; [reflexivity|].
    cbn [flat_map]. now rewrite flat_map_app, Hk, IHk. }
  cbn [unwrap_disallowed]. destruct (mem nm ALLOWED_TAGS).
  - cbn [flat_map strings_of]. now rewrite app_nil_r.
  - exact Hk.
Qed.

Lemma strings_of_forest_unwrap (cs : list node) :
  flat_map strings_of (flat_map unwrap_disallowed cs)
  = flat_map strings_of cs.
Proof.
  induction cs as [|c cs IH]; [reflexivity|].
  cbn [flat_map]. now rewrite flat_map_app, strings_of_unwrap, IH.
Qed.

Lemma strings_of_sanitize_tree (cs : list node) :
  flat_map strings_of (sanitize_tree cs) = flat_map strings_of cs.
Proof.
  unfold sanitize_tree.
  rewrite strings_of_forest_for_each, strings_of_forest_unwrap.
  now rewrite !strings_of_forest_for_each.
Qed.

(** X1: rich sanitization of the tree keeps every text node, unchanged and
    in document order, whatever it renames, prunes or unwraps; the visible
    text of the cell is therefore the same before and after. *)
Theorem sanitize_tree_keeps_text (cs : list node) (sep : str) :
  flat_map strings_of (sanitize_tree cs) = flat_map strings_of cs
  /\ get_text sep (sanitize_tree cs) = get_text sep cs.
Proof.
  split; [apply strings_of_sanitize_tree|].
  unfold get_text. now rewrite strings_of_sanitize_tree.
Qed.

Lemma allowed_of_forest (cs : list node) :
  Forall (fun n =>
    Forall (fun e => mem (node_name e) ALLOWED_TAGS = true)
      (descendants (sanitize_tree [n]))) cs ->
  Forall (fun e => mem (node_name e) ALLOWED_TAGS = true)
    (descendants (sanitize_tree cs)).
Proof.
  induction 1 as [|n cs Hn _ IH]; [constructor|].
  rewrite sanitize_tree_cons, descendants_app.
  apply Forall_app. now split.
Qed.

Lemma allowed_of_node (n : node) :
  Forall (fun e => mem (node_name e) ALLOWED_TAGS = true)
    (descendants (sanitize_tree [n])).
Proof.
  induction n as [s | i nm a kids IH] using node_forest_ind; [constructor|].
  apply allowed_of_forest in IH. rewrite sanitize_tree_elem.
  destruct (mem (fst (loops_body nm a)) ALLOWED_TAGS) eqn:E; [|exact IH].
  rewrite descendants_single. constructor; [exact E | exact IH].
Qed.

(** X2: after rich sanitization of the tree every element that is left
    has an allowed name; no [mark] and no table, row or cell element
    remains. *)
Theorem sanitize_tree_only_allowed (cs : list node) :
  Forall (fun e => mem (node_name e) ALLOWED_TAGS = true)
    (descendants (sanitize_tree cs))
  /\ find_all "mark" (sanitize_tree cs) = []
  /\ find_all "table" (sanitize_tree cs) = []
  /\ find_all "tr" (sanitize_tree cs) = []
  /\ find_all "td" (sanitize_tree cs) = [].
Proof.
  assert (H : Forall (fun e => mem (node_name e) ALLOWED_TAGS = true)
                (descendants (sanitize_tree cs))).
  { apply allowed_of_forest, Forall_forall. intros n _. apply allowed_of_node. }
  assert (Hnone : forall nm : str, mem nm ALLOWED_TAGS = false ->
                    find_all nm (sanitize_tree cs) = []).
  { intros nm Hnm. unfold find_all.
    induction H as [|e l He _ IH]; [reflexivity|].
    cbn [filter]. destruct (str_eqb nm (node_name e)) eqn:E; [|exact IH].
    apply str_eqb_eq in E. rewrite <- E in He. congruence. }
  split; [exact H|].
  repeat split; apply Hnone; reflexivity.
Qed.

(** * Styles after background stripping *)

Lemma split_char_clean c s : Forall (fun t => ~ In c t) (split_char c s).
Proof.
  induction s as [|x s IH]; simpl.
  - constructor; [intros [] | constructor].
  - destruct (Ascii.eqb x c) eqn:E.
    + constructor; [intros [] | exact IH].
    + destruct (split_char c s) as [|t ts].
      * constructor; [|constructor]. intros [H|[]]. subst.
        now rewrite Ascii.eqb_refl in E.
      * inversion IH; subst. constructor; [|assumption].
        intros [H|H]; [subst; now rewrite Ascii.eqb_refl in E | contradiction].
Qed.

Lemma split_join_char c l :
  l <> [] -> Forall (fun t => ~ In c t) l ->
  split_char c (join [c] l) = l.
Proof.
  induction l as [|x l IH]; intros Hne Hall; [contradiction|].
  inversion Hall; subst.
  destruct l as [|y l].
  - simpl. now apply split_char_none.
  - change (join [c] (x :: y :: l)) with (x ++ c :: join [c] (y :: l)).
    rewrite split_char_app by assumption. f_equal.
    apply IH; [discriminate | assumption].
Qed.

Lemma filter_idem {A} (p : A -> bool) l : filter p (filter p l) = filter p l.
Proof.
  induction l as [|x l IH]; [reflexivity|]. simpl.
  destruct (p x) eqn:E; simpl; [rewrite E; now f_equal | exact IH].
Qed.

Lemma Forall_filter_sub {A} (P : A -> Prop) p (l : list A) :
  Forall P l -> Forall P (filter p l).
Proof.
  induction 1 as [|x l Hx _ IH]; simpl; [constructor|].
  destruct (p x); [now constructor | exact IH].
Qed.

Lemma declarations_strip_background style :
  declarations (strip_background style)
  = match filter kept_declaration (declarations style) with
    | [] => [[]]
    | k :: l => k :: l
    end.
Proof.
  rewrite strip_background_eq. fold (declarations style).
  destruct (filter kept_declaration (declarations style)) as [|k l] eqn:E;
    [reflexivity|].
  unfold declarations at 1.
  change (list_ascii_of_string ";") with [";"%char].
  apply split_join_char; [discriminate|].
  rewrite <- E. apply Forall_filter_sub. apply split_char_clean.
Qed.

Lemma kept_not_background d :
  kept_declaration d = true ->
  startswith "background-color" (strip d) = false.
Proof.
  unfold kept_declaration. intros H. apply andb_true_iff in H as [H _].
  now apply negb_true_iff in H.
Qed.

Lemma strip_background_free style :
  background_free (strip_background style) = true.
Proof.
  unfold background_free. rewrite declarations_strip_background.
  destruct (filter kept_declaration (declarations style)) as [|k l] eqn:E;
    [reflexivity|].
  apply forallb_forall. intros d Hd. rewrite <- E in Hd.
  apply filter_In in Hd as [_ Hk]. apply negb_true_iff.
  now apply kept_not_background.
Qed.

Lemma strip_background_idem style :
  strip_background (strip_background style) = strip_background style.
Proof.
  rewrite (strip_background_eq (strip_background style)).
  fold (declarations (strip_background style)).
  rewrite declarations_strip_background, (strip_background_eq style).
  fold (declarations style).
  destruct (filter kept_declaration (declarations style)) as [|k l] eqn:E;
    [reflexivity|].
  rewrite <- E. now rewrite filter_idem.
Qed.

(** X3: the style that background stripping writes holds no
    background-color declaration; what it holds are the declarations of the
    old style that are not blank and are no background-color ones, in
    their order (or nothing); stripping it again changes nothing. *)
Theorem strip_background_clean (style : str) :
  background_free (strip_background style) = true
  /\ strip_background (strip_background style) = strip_background style
  /\ (filter kept_declaration (declarations style) <> [] ->
        declarations (strip_background style)
        = filter kept_declaration (declarations style))
  /\ (filter kept_declaration (declarations style) = [] ->
        strip_background style = []).
Proof.
  split; [apply strip_background_free|].
  split; [apply strip_background_idem|].
  split.
  - intros Hne. rewrite declarations_strip_background.
    now destruct (filter kept_declaration (declarations style)).
  - intros He. rewrite strip_background_eq. fold (declarations style).
    now rewrite He.
Qed.

Lemma style_body_free nm a : style_background_free (snd (style_body nm a)) = true.
Proof.
  unfold style_body, style_background_free.
  destruct (dict_get "style" a) as [v|] eqn:E; cbn [snd].
  - rewrite dict_get_set_same. cbn [attr_text]. apply strip_background_free.
  - now rewrite E.
Qed.

Lemma Forall_map_iff {A B} (P : B -> Prop) (f : A -> B) l :
  Forall P (map f l) <-> Forall (fun x => P (f x)) l.
Proof.
  induction l as [|x l IH]; simpl; [split; constructor|].
  split; intros H; inversion H; subst; constructor; tauto.
Qed.

(** X4: after rich sanitization of the tree no element has a style with a
    background-color declaration. *)
Theorem sanitize_tree_background_free (cs : list node) :
  Forall (fun e => style_background_free (node_attrs e) = true)
    (descendants (sanitize_tree cs)).
Proof.
  unfold sanitize_tree.
  set (cs4 := flat_map unwrap_disallowed _).
  pose proof (descendants_for_each style_body cs4) as H.
  apply (Forall_map_iff (fun p => style_background_free (snd p) = true)
           (fun e => (node_name e, node_attrs e))).
  rewrite H. apply Forall_map_iff. apply Forall_forall. intros e _.
  apply style_body_free.
Qed.

(** * Sanitizing what is sanitized *)

Lemma dict_set_get_same k v a : dict_get k a = Some v -> dict_set k v a = a.
Proof.
  induction a as [|[k' v'] a IH]; simpl; [discriminate|].
  destruct (str_eqb k k') eqn:E.
  - now intros [= ->].
  - intros H. now rewrite IH.
Qed.

Lemma dict_set_set k v1 v2 a :
  dict_set k v2 (dict_set k v1 a) = dict_set k v2 a.
Proof.
  induction a as [|[k' v'] a IH]; simpl.
  - now rewrite str_eqb_refl.
  - destruct (str_eqb k k') eqn:E; simpl; rewrite E; [reflexivity|].
    now rewrite IH.
Qed.

Lemma filter_all {A} (p : A -> bool) l :
  (forall x, In x l -> p x = true) -> filter p l = l.
Proof.
  induction l as [|x l IH]; intros H; [reflexivity|]. simpl.
  rewrite (H x) by now left. f_equal. apply IH. intros y Hy. apply H.
  now right.
Qed.

Lemma filter_map_none {A B} (f : A -> option B) l :
  (forall x, In x l -> f x = None) -> filter_map f l = [].
Proof.
  induction l as [|x l IH]; intros H; [reflexivity|]. simpl.
  rewrite (H x) by now left. apply IH. intros y Hy. apply H. now right.
Qed.

Lemma convert_fixed a :
  (forall t, In t (class_list a) -> is_color_class t = false) ->
  convert_color_classes_to_inline a = a.
Proof.
  intros H. unfold class_list in H.
  destruct (dict_get "class" a) as [[s|[|c cs]]|] eqn:Hc;
    try (unfold convert_color_classes_to_inline; now rewrite Hc).
  rewrite (convert_color_classes_eq a c cs Hc).
  rewrite filter_all, filter_map_none.
  - cbn [fold_left with_classes]. now apply dict_set_get_same.
  - intros t Ht. apply class_style_not_color. now apply H.
  - intros t Ht. rewrite (H t Ht). reflexivity.
Qed.

Lemma class_list_convert_clean a t :
  In t (class_list (convert_color_classes_to_inline a)) ->
  is_color_class t = false.
Proof.
  destruct (dict_get "class" a) as [[s|[|c cs]]|] eqn:Hc.
  - unfold convert_color_classes_to_inline, class_list. rewrite Hc.
    now rewrite Hc.
  - unfold convert_color_classes_to_inline, class_list. rewrite Hc.
    now rewrite Hc.
  - rewrite (convert_color_classes_eq a c cs Hc), class_list_with_classes.
    intros H. apply filter_In in H as [_ H]. now apply negb_true_iff in H.
  - unfold convert_color_classes_to_inline, class_list. rewrite Hc.
    now rewrite Hc.
Qed.

Lemma convert_convert a :
  convert_color_classes_to_inline (convert_color_classes_to_inline a)
  = convert_color_classes_to_inline a.
Proof. apply convert_fixed. intros t. apply class_list_convert_clean. Qed.

Lemma class_list_style_body nm a :
  class_list (snd (style_body nm a)) = class_list a.
Proof.
  unfold style_body, class_list.
  destruct (dict_get "style" a); cbn [snd]; [|reflexivity].
  rewrite dict_get_set_other; [reflexivity | discriminate].
Qed.

Lemma style_body_some nm a v :
  dict_get "style" a = Some v ->
  snd (style_body nm a)
  = dict_set "style" (AStr (strip_background (attr_text v))) a.
Proof. unfold style_body. now intros ->. Qed.

Lemma style_body_none nm a :
  dict_get "style" a = None -> snd (style_body nm a) = a.
Proof. unfold style_body. now intros ->. Qed.

Lemma style_body_idem nm nm' a :
  snd (style_body nm' (snd (style_body nm a))) = snd (style_body nm a).
Proof.
  destruct (dict_get "style" a) as [v|] eqn:E.
  - rewrite (style_body_some nm a v E).
    rewrite (style_body_some nm' _ (AStr (strip_background (attr_text v))))
      by apply dict_get_set_same.
    cbn [attr_text]. now rewrite strip_background_idem, dict_set_set.
  - rewrite (style_body_none nm a E). now apply style_body_none.
Qed.

Lemma anchor_attrs_idem a : anchor_attrs (anchor_attrs a) = anchor_attrs a.
Proof.
  unfold anchor_attrs.
  destruct (dict_get "href" a) as [v|]; [|reflexivity].
  destruct (is_nonempty (attr_text v)) eqn:E; [|reflexivity].
  cbn [dict_get].
  change (str_eqb (list_ascii_of_string "href") "href") with true.
  cbv iota. now rewrite E.
Qed.

Lemma loops_body_eq nm a :
  loops_body nm a
  = if str_eqb nm "mark" then ("span" : str, convert_color_classes_to_inline a)
    else if str_eqb nm "span" then (nm, convert_color_classes_to_inline a)
    else if str_eqb nm "a" then (nm, anchor_attrs a)
    else (nm, a).
Proof.
  unfold loops_body, mark_body.
  destruct (str_eqb nm "mark") eqn:Em; cbn [fst snd].
  - unfold span_body.
    change (str_eqb (list_ascii_of_string "span") "span") with true.
    cbv iota. cbn [fst snd]. unfold anchor_body.
    change (str_eqb (list_ascii_of_string "span") "a") with false.
    cbv iota. now rewrite convert_convert.
  - unfold span_body. destruct (str_eqb nm "span") eqn:Es; cbn [fst snd].
    + unfold anchor_body. apply str_eqb_eq in Es. subst nm. reflexivity.
    + reflexivity.
Qed.

Lemma loops_body_again nm a :
  let nm3 := fst (loops_body nm a) in
  let a4 := snd (style_body nm3 (snd (loops_body nm a))) in
  fst (loops_body nm3 a4) = nm3
  /\ snd (style_body nm3 (snd (loops_body nm3 a4))) = a4.
Proof.
  cbn zeta. rewrite (loops_body_eq nm a).
  assert (Hspan : forall x,
            fst (loops_body "span" (snd (style_body "span" (convert_color_classes_to_inline x))))
            = list_ascii_of_string "span"
            /\ snd (style_body "span"
                      (snd (loops_body "span"
                              (snd (style_body "span"
                                      (convert_color_classes_to_inline x))))))
               = snd (style_body "span" (convert_color_classes_to_inline x))).
  { intros x. rewrite loops_body_eq.
    change (str_eqb (list_ascii_of_string "span") "mark") with false.
    change (str_eqb (list_ascii_of_string "span") "span") with true.
    cbv iota. cbn [fst snd]. split; [reflexivity|].
    rewrite convert_fixed; [apply style_body_idem|].
    intros t. rewrite class_list_style_body. apply class_list_convert_clean. }
  destruct (str_eqb nm "mark") eqn:Em; cbn [fst snd]; [apply Hspan|].
  destruct (str_eqb nm "span") eqn:Es; cbn [fst snd].
  { apply str_eqb_eq in Es. subst nm. apply Hspan. }
  destruct (str_eqb nm "a") eqn:Ea; cbn [fst snd].
  - rewrite style_body_anchor, loops_body_eq, Em, Es, Ea. cbn [fst snd].
    split; [reflexivity|]. now rewrite anchor_attrs_idem, style_body_anchor.
  - rewrite loops_body_eq, Em, Es, Ea. cbn [fst snd].
    split; [reflexivity | apply style_body_idem].
Qed.

Lemma sanitize_twice_forest (cs : list node) :
  Forall (fun n => sanitize_tree (sanitize_tree [n]) = sanitize_tree [n]) cs ->
  sanitize_tree (sanitize_tree cs) = sanitize_tree cs.
Proof.
  induction 1 as [|n cs Hn _ IH]; [reflexivity|].
  rewrite sanitize_tree_cons, sanitize_tree_app. now rewrite Hn, IH.
Qed.

Lemma sanitize_twice_node (n : node) :
  sanitize_tree (sanitize_tree [n]) = sanitize_tree [n].
Proof.
  induction n as [s | i nm a kids IH] using node_forest_ind; [reflexivity|].
  apply sanitize_twice_forest in IH.
  rewrite sanitize_tree_elem.
  destruct (mem (fst (loops_body nm a)) ALLOWED_TAGS) eqn:E; [|exact IH].
  rewrite sanitize_tree_elem.
  destruct (loops_body_again nm a) as [H1 H2]. cbn zeta in H1, H2.
  rewrite H1, E, H2, IH. reflexivity.
Qed.

(** X5: the tree part of rich sanitization is idempotent: on a tree that
    it has sanitized it changes nothing. *)
Theorem sanitize_tree_idempotent (cs : list node) :
  sanitize_tree (sanitize_tree cs) = sanitize_tree cs.
Proof.
  apply sanitize_twice_forest, Forall_forall. intros n _.
  apply sanitize_twice_node.
Qed.

(** * The cell and the document in rich mode *)

Lemma node_by_oid_elem i j nm a cs :
  node_by_oid i (Elem j nm a cs)
  = if i =? j then Some (Elem j nm a cs) else lookup_oid i cs.
Proof.
  cbn [node_by_oid]. destruct (i =? j); [reflexivity|].
  induction cs as [|c cs IH]; [reflexivity|].
  cbn [lookup_oid]. now rewrite IH.
Qed.

Lemma set_contents_node_elem i j nm a cs new :
  set_contents_node i new (Elem j nm a cs)
  = if i =? j then Elem j nm a new
    else Elem j nm a (set_contents i new cs).
Proof. reflexivity. Qed.

Lemma lookup_set_forest i new (cs : list node) :
  Forall (fun n =>
    (node_by_oid i n = None ->
       set_contents_node i new n = n)
    /\ (node_by_oid i n <> None ->
          exists m, node_by_oid i (set_contents_node i new n) = Some m
                    /\ node_children m = new)) cs ->
  (lookup_oid i cs = None -> set_contents i new cs = cs)
  /\ (lookup_oid i cs <> None ->
        exists m, lookup_oid i (set_contents i new cs) = Some m
                  /\ node_children m = new).
Proof.
  induction 1 as [|n cs [Hn1 Hn2] _ [IH1 IH2]].
  - split; [reflexivity | intros H; now contradiction H].
  - cbn [lookup_oid set_contents map].
    destruct (node_by_oid i n) as [m|] eqn:E.
    + split; [discriminate|]. intros _.
      destruct (Hn2 ltac:(discriminate)) as [m' [Hm' Hc]].
      exists m'. now rewrite Hm'.
    + split.
      * intros H. rewrite (Hn1 eq_refl). f_equal. now apply IH1.
      * intros H. rewrite (Hn1 eq_refl), E. now apply IH2.
Qed.

Lemma lookup_set_node i new (n : node) :
  (node_by_oid i n = None -> set_contents_node i new n = n)
  /\ (node_by_oid i n <> None ->
        exists m, node_by_oid i (set_contents_node i new n) = Some m
                  /\ node_children m = new).
Proof.
  induction n as [s | j nm a cs IH] using node_forest_ind.
  - split; [reflexivity | intros H; now contradiction H].
  - apply (lookup_set_forest i new) in IH. destruct IH as [IH1 IH2].
    rewrite node_by_oid_elem, set_contents_node_elem.
    destruct (i =? j) eqn:E.
    + split; [discriminate|]. intros _.
      exists (Elem j nm a new). rewrite node_by_oid_elem, E. now split.
    + split.
      * intros H. f_equal. now apply IH1.
      * intros H. rewrite node_by_oid_elem, E. now apply IH2.
Qed.

Lemma set_contents_absent i new d :
  lookup_oid i d = None -> set_contents i new d = d.
Proof.
  apply lookup_set_forest, Forall_forall. intros n _. apply lookup_set_node.
Qed.

Lemma contents_of_set_contents i new d :
  lookup_oid i d <> None -> contents_of i (set_contents i new d) = new.
Proof.
  intros H. unfold contents_of.
  assert (Hf : Forall (fun n =>
    (node_by_oid i n = None -> set_contents_node i new n = n)
    /\ (node_by_oid i n <> None ->
          exists m, node_by_oid i (set_contents_node i new n) = Some m
                    /\ node_children m = new)) d)
    by (apply Forall_forall; intros n _; apply lookup_set_node).
  destruct (proj2 (lookup_set_forest i new d Hf) H) as [m [Hm Hc]].
  now rewrite Hm.
Qed.

Lemma set_contents_node_idem i new (n : node) :
  set_contents_node i new (set_contents_node i new n)
  = set_contents_node i new n.
Proof.
  induction n as [s | j nm a cs IH] using node_forest_ind; [reflexivity|].
  rewrite set_contents_node_elem. destruct (i =? j) eqn:E;
    rewrite set_contents_node_elem, E; [reflexivity|].
  f_equal. unfold set_contents. rewrite map_map.
  induction IH as [|c cs Hc _ IHc]; [reflexivity|].
  cbn [map]. now rewrite Hc, IHc.
Qed.

Lemma set_contents_idem i new d :
  set_contents i new (set_contents i new d) = set_contents i new d.
Proof.
  unfold set_contents. rewrite map_map.
  induction d as [|c d IH]; [reflexivity|].
  cbn [map]. now rewrite set_contents_node_idem, IH.
Qed.

Lemma contents_of_absent i d : lookup_oid i d = None -> contents_of i d = [].
Proof. unfold contents_of. now intros ->. Qed.

Lemma sanitize_tree_twice (cs : list node) :
  sanitize_tree (sanitize_tree cs) = sanitize_tree cs.
Proof.
  apply sanitize_twice_forest, Forall_forall. intros n _.
  apply sanitize_twice_node.
Qed.

(** X6: rich-mode sanitization works in place and is idempotent on the
    document.  When the cell is in the document, its contents afterwards
    are the sanitized tree; when it is not (an element that an earlier call
    unwrapped), the result is the empty string and the document is as it
    was.  Sanitizing the same cell again returns the same string and
    leaves the document as the first call left it. *)
Theorem sanitize_rich_in_place
  (html_parser : str -> list node) (cell : nat) (d : doc) :
  (lookup_oid cell d <> None ->
     contents_of cell (snd (sanitize_inline_html html_parser cell false d))
     = sanitize_tree (contents_of cell d))
  /\ (lookup_oid cell d = None ->
        sanitize_inline_html html_parser cell false d = ([], d))
  /\ sanitize_inline_html html_parser cell false
       (snd (sanitize_inline_html html_parser cell false d))
     = sanitize_inline_html html_parser cell false d.
Proof.
  assert (Habs : lookup_oid cell d = None ->
                 sanitize_inline_html html_parser cell false d = ([], d)).
  { intros H. unfold sanitize_inline_html.
    rewrite (contents_of_absent cell d H).
    change (sanitize_tree []) with (@nil node).
    now rewrite (set_contents_absent cell [] d H). }
  split; [|split; [exact Habs|]].
  - intros H. unfold sanitize_inline_html. cbn [snd].
    now apply contents_of_set_contents.
  - destruct (lookup_oid cell d) as [m|] eqn:E.
    + unfold sanitize_inline_html at 2. cbn [snd].
      unfold sanitize_inline_html.
      rewrite contents_of_set_contents by (rewrite E; discriminate).
      now rewrite sanitize_tree_twice, set_contents_idem.
    + rewrite (Habs eq_refl). cbn [snd]. now apply Habs.
Qed.

(** * What the resolver leaves alone *)

Lemma dict_get_merge_other k a f :
  k <> list_ascii_of_string "style" ->
  dict_get k (merge_style a f) = dict_get k a.
Proof. intros Hk. unfold merge_style. now apply dict_get_set_other. Qed.

Lemma dict_get_merges_other k fs : forall a,
  k <> list_ascii_of_string "style" ->
  dict_get k (fold_left merge_style fs a) = dict_get k a.
Proof.
  induction fs as [|f fs IH]; intros a Hk; cbn [fold_left]; [reflexivity|].
  now rewrite IH, dict_get_merge_other.
Qed.

Lemma dict_get_with_classes_other k l a :
  k <> list_ascii_of_string "class" ->
  dict_get k (with_classes l a) = dict_get k a.
Proof.
  intros Hk. destruct l as [|x l]; cbn [with_classes].
  - now apply dict_get_pop_other.
  - now apply dict_get_set_other.
Qed.

(** X7: the resolver and the style merge touch nothing else.  Merging a
    rule changes no attribute but [style]; resolving the color classes
    changes no attribute but [class] and [style]; and when no class token
    contributes a color, the [style] attribute is as it was (in particular
    none is created). *)
Theorem color_classes_frame (a : attrs) :
  (forall k f, k <> list_ascii_of_string "style" ->
     dict_get k (merge_style a f) = dict_get k a)
  /\ (forall k, k <> list_ascii_of_string "class" ->
        k <> list_ascii_of_string "style" ->
        dict_get k (convert_color_classes_to_inline a) = dict_get k a)
  /\ (filter_map class_style (class_list a) = [] ->
        dict_get "style" (convert_color_classes_to_inline a)
        = dict_get "style" a).
Proof.
  split; [intros k f Hk; now apply dict_get_merge_other|].
  assert (Hcases :
    (exists c cs, dict_get "class" a = Some (AList (c :: cs)))
    \/ convert_color_classes_to_inline a = a).
  { unfold convert_color_classes_to_inline.
    destruct (dict_get "class" a) as [[s|[|c cs]]|]; eauto. }
  split.
  - intros k Hc Hs. destruct Hcases as [[c [cs H]] | ->]; [|reflexivity].
    rewrite (convert_color_classes_eq a c cs H).
    rewrite dict_get_with_classes_other by assumption.
    now apply dict_get_merges_other.
  - intros Hnone. destruct Hcases as [[c [cs H]] | ->]; [|reflexivity].
    rewrite (convert_color_classes_eq a c cs H).
    unfold class_list in Hnone. rewrite H in Hnone. rewrite Hnone.
    cbn [fold_left]. apply dict_get_with_classes_other. discriminate.
Qed.

(** * The tokens the resolver recognizes *)

Lemma takewhile_dropwhile {A} (p : A -> bool) l :
  l = takewhile p l ++ dropwhile p l.
Proof.
  induction l as [|x l IH]; [reflexivity|].
  cbn [takewhile dropwhile]. destruct (p x); [|reflexivity].
  cbn [app]. now rewrite <- IH.
Qed.

Lemma forallb_takewhile {A} (p : A -> bool) l :
  forallb p (takewhile p l) = true.
Proof.
  induction l as [|x l IH]; [reflexivity|].
  cbn [takewhile]. destruct (p x) eqn:E; [|reflexivity].
  cbn [forallb]. now rewrite E, IH.
Qed.

Lemma takewhile_app_stop {A} (p : A -> bool) key c r :
  forallb p key = true -> p c = false ->
  takewhile p (key ++ c :: r) = key /\ dropwhile p (key ++ c :: r) = c :: r.
Proof.
  intros Hall Hc. induction key as [|x key IH].
  - cbn [app takewhile dropwhile]. now rewrite Hc.
  - cbn [forallb] in Hall. apply andb_true_iff in Hall as [Hx Hall].
    cbn [app takewhile dropwhile]. rewrite Hx.
    destruct (IH Hall) as [-> ->]. now split.
Qed.

Lemma match_key_some rest key :
  match_key rest = Some key ->
  key <> [] /\ forallb is_key_char key = true
  /\ (rest = key \/ rest = key ++ [newline]).
Proof.
  unfold match_key. intros H.
  pose proof (takewhile_dropwhile is_key_char rest) as Hsplit.
  pose proof (forallb_takewhile is_key_char rest) as Hall.
  destruct (takewhile is_key_char rest) as [|x k]; [discriminate|].
  destruct (dropwhile is_key_char rest) as [|c [|c' r]].
  - injection H as <-. rewrite app_nil_r in Hsplit.
    repeat split; [discriminate | exact Hall | now left].
  - destruct (Ascii.eqb c newline) eqn:E; [|discriminate].
    apply Ascii.eqb_eq in E. subst c. injection H as <-.
    repeat split; [discriminate | exact Hall | now right].
  - discriminate.
Qed.

Lemma match_key_newline key :
  key <> [] -> forallb is_key_char key = true ->
  match_key (key ++ [newline]) = Some key.
Proof.
  intros Hne Hall. unfold match_key.
  destruct (takewhile_app_stop is_key_char key newline [] Hall eq_refl)
    as [-> ->].
  destruct key; [contradiction | reflexivity].
Qed.

Lemma block_color_not_highlight r :
  strip_prefix "highlight-" ("block-color-" ++ r) = None.
Proof. reflexivity. Qed.

(** X8: the tokens the resolver recognizes are exactly
    [highlight-<key>] and [block-color-<key>], possibly followed by one
    final newline, where the key is a non-empty run of lowercase ASCII
    letters and underscores; the key is what is looked up. *)
Theorem color_class_key_iff (t key : str) :
  color_class_key t = Some key
  <-> key <> [] /\ forallb is_key_char key = true
      /\ (t = "highlight-" ++ key
          \/ t = "highlight-" ++ key ++ [newline]
          \/ t = "block-color-" ++ key
          \/ t = "block-color-" ++ key ++ [newline]).
Proof.
  split.
  - unfold color_class_key. intros H.
    destruct (strip_prefix "highlight-" t) as [rest|] eqn:E1.
    + apply strip_prefix_some in E1.
      destruct (match_key_some rest key H) as [Hne [Hall [-> | ->]]];
        repeat split; auto.
    + destruct (strip_prefix "block-color-" t) as [rest|] eqn:E2;
        [|discriminate].
      apply strip_prefix_some in E2.
      destruct (match_key_some rest key H) as [Hne [Hall [-> | ->]]];
        repeat split; auto.
  - intros [Hne [Hall [-> | [-> | [-> | ->]]]]]; unfold color_class_key.
    + rewrite strip_prefix_app. now apply match_key_lower.
    + rewrite strip_prefix_app. now apply match_key_newline.
    + rewrite block_color_not_highlight, strip_prefix_app.
      now apply match_key_lower.
    + rewrite block_color_not_highlight, strip_prefix_app.
      now apply match_key_newline.
Qed.

(** * The column map *)

Lemma in_roles col :
  In col roles ->
  col = list_ascii_of_string "id" \/ col = list_ascii_of_string "front"
  \/ col = list_ascii_of_string "back" \/ col = list_ascii_of_string "tags".
Proof.
  unfold roles. cbn [map In]. intros [<-|[<-|[<-|[<-|[]]]]]; auto.
Qed.

Lemma assign_role_has_role col cm i h :
  In col roles ->
  col_map_get col (assign_role cm (i, h))
  = if has_role col h then Some i else col_map_get col cm.
Proof.
  intros Hc.
  apply in_roles in Hc as [-> | [-> | [-> | ->]]];
    unfold assign_role, has_role, header_role, col_map_get; cbn [fst snd];
    destruct (contains "notion-id" h);
    destruct (str_eqb h "front");
    destruct (str_eqb h "back");
    destruct (contains "tags" h);
    reflexivity.
Qed.

Lemma combine_seq_snoc {A} (l : list A) x : forall s,
  combine (seq s (length l) ++ [s + length l]) (l ++ [x])
  = combine (seq s (length l)) l ++ [(s + length l, x)].
Proof.
  induction l as [|y l IH]; intros s.
  - cbn [length seq app combine]. now rewrite Nat.add_0_r.
  - cbn [length seq app combine]. rewrite Nat.add_succ_r.
    change (S (s + length l)) with (S s + length l).
    now rewrite (IH (S s)).
Qed.

Lemma enumerate_snoc {A} (l : list A) x :
  enumerate (l ++ [x]) = enumerate l ++ [(length l, x)].
Proof.
  unfold enumerate. rewrite length_app. cbn [length].
  rewrite Nat.add_1_r, seq_S. exact (combine_seq_snoc l x 0).
Qed.

Lemma build_col_map_snoc hs x :
  build_col_map (hs ++ [x])
  = assign_role (build_col_map hs) (length hs, x).
Proof.
  unfold build_col_map. now rewrite enumerate_snoc, fold_left_app.
Qed.

Lemma col_map_get_snoc col hs x :
  In col roles ->
  col_map_get col (build_col_map (hs ++ [x]))
  = if has_role col x then Some (length hs)
    else col_map_get col (build_col_map hs).
Proof.
  intros Hc. rewrite build_col_map_snoc. now apply assign_role_has_role.
Qed.

Lemma col_map_get_empty col : col_map_get col (build_col_map []) = None.
Proof.
  unfold build_col_map, col_map_get. cbn [enumerate length seq combine fold_left].
  destruct (str_eqb col "id"), (str_eqb col "front"),
    (str_eqb col "back"), (str_eqb col "tags"); reflexivity.
Qed.

Lemma build_col_map_some col hs : forall i,
  In col roles ->
  col_map_get col (build_col_map hs) = Some i ->
  (exists h, nth_error hs i = Some h /\ has_role col h = true)
  /\ (forall j h, i < j -> nth_error hs j = Some h -> has_role col h = false).
Proof.
  induction hs as [|x hs IH] using rev_ind; intros i Hc H.
  - rewrite col_map_get_empty in H. discriminate.
  - rewrite col_map_get_snoc in H by assumption.
    destruct (has_role col x) eqn:Ex.
    + injection H as <-. split.
      * exists x. split; [|exact Ex].
        rewrite nth_error_app2 by lia. now rewrite Nat.sub_diag.
      * intros j h Hj Hn.
        assert (Hlt : j < length (hs ++ [x]))
          by (apply nth_error_Some; congruence).
        rewrite length_app in Hlt. cbn [length] in Hlt. lia.
    + destruct (IH i Hc H) as [[h [Hn Hr]] Hlast]. split.
      * exists h. split; [|exact Hr].
        rewrite nth_error_app1; [exact Hn|].
        apply nth_error_Some. congruence.
      * intros j h' Hj Hn'.
        destruct (Nat.lt_ge_cases j (length hs)) as [Hlt | Hge].
        -- rewrite nth_error_app1 in Hn' by assumption. eauto.
        -- rewrite nth_error_app2 in Hn' by assumption.
           destruct (j - length hs) as [|k] eqn:Ek.
           ++ cbn in Hn'. injection Hn' as <-. exact Ex.
           ++ cbn in Hn'. destruct k; discriminate.
Qed.

Lemma build_col_map_none col hs :
  In col roles ->
  (col_map_get col (build_col_map hs) = None
   <-> forall h, In h hs -> has_role col h = false).
Proof.
  intros Hc. induction hs as [|x hs IH] using rev_ind.
  - rewrite col_map_get_empty. split; [intros _ h [] | reflexivity].
  - rewrite col_map_get_snoc by assumption.
    destruct (has_role col x) eqn:Ex.
    + split; [discriminate|]. intros H.
      rewrite (H x) in Ex; [discriminate|].
      apply in_or_app. right. now left.
    + rewrite IH. split.
      * intros H h Hin. apply in_app_or in Hin as [Hin|[<-|[]]]; auto.
      * intros H h Hin. apply H, in_or_app. now left.
Qed.

(** X9: the column of a role is the position of the last header that has
    the role.  For each of the roles id, front, back and tags: the map
    gives column [i] to the role exactly when header [i] has the role (its
    lowercased text contains notion-id, is front, is back, or contains
    tags, tested in that order) and no later header has it; the role has
    no column exactly when no header has it. *)
Theorem build_col_map_last_wins (hs : list str) (col : str) :
  In col roles ->
  (forall i,
     col_map_get col (build_col_map hs) = Some i
     <-> (exists h, nth_error hs i = Some h /\ has_role col h = true)
         /\ (forall j h, i < j -> nth_error hs j = Some h ->
               has_role col h = false))
  /\ (col_map_get col (build_col_map hs) = None
      <-> forall h, In h hs -> has_role col h = false).
Proof.
  intros Hc. split; [|now apply build_col_map_none].
  intros i. split; [now apply build_col_map_some|].
  intros [[h [Hn Hr]] Hlast].
  destruct (col_map_get col (build_col_map hs)) as [k|] eqn:E.
  - destruct (build_col_map_some col hs k Hc E) as [[h' [Hn' Hr']] Hlast'].
    destruct (Nat.lt_trichotomy i k) as [Hlt | [-> | Hgt]].
    + rewrite (Hlast k h' Hlt Hn') in Hr'. discriminate.
    + reflexivity.
    + rewrite (Hlast' i h Hgt Hn) in Hr. discriminate.
  - apply (build_col_map_none col hs Hc) with (h := h) in E.
    + congruence.
    + eapply nth_error_In. exact Hn.
Qed.

(** X9 at a header row with two Front columns. *)
Lemma build_col_map_last_wins_witness :
  In (list_ascii_of_string "front") roles
  /\ col_map_get "front"
       (build_col_map [("front" : str); ("notion-id" : str); ("front" : str)])
     = Some 2.
Proof.
  assert (Hc : In (list_ascii_of_string "front") roles)
    by (right; now left).
  split; [exact Hc|].
  apply (proj1 (build_col_map_last_wins
                  [("front" : str); ("notion-id" : str); ("front" : str)]
                  "front" Hc) 2).
  split.
  - exists (list_ascii_of_string "front"). split; reflexivity.
  - intros j h Hj Hn. destruct j as [|[|[|[|j]]]]; try lia; discriminate.
Defined.

(** * What a located table guarantees *)

Lemma has_role_unique c1 c2 h :
  has_role c1 h = true -> has_role c2 h = true -> c1 = c2.
Proof.
  unfold has_role. destruct (header_role h) as [r|]; [|discriminate].
  intros H1 H2. apply str_eqb_eq in H1, H2. congruence.
Qed.

Lemma build_col_map_distinct c1 c2 hs i :
  In c1 roles -> In c2 roles -> c1 <> c2 ->
  col_map_get c1 (build_col_map hs) = Some i ->
  col_map_get c2 (build_col_map hs) <> Some i.
Proof.
  intros H1 H2 Hne E1 E2.
  destruct (build_col_map_some c1 hs i H1 E1) as [[h [Hn Hr]] _].
  destruct (build_col_map_some c2 hs i H2 E2) as [[h' [Hn' Hr']] _].
  assert (h' = h) by congruence. subst h'.
  apply Hne. eapply has_role_unique; eassumption.
Qed.

Lemma build_col_map_bound col hs i :
  In col roles ->
  col_map_get col (build_col_map hs) = Some i -> i < length hs.
Proof.
  intros Hc E.
  destruct (build_col_map_some col hs i Hc E) as [[h [Hn _]] _].
  apply nth_error_Some. congruence.
Qed.

(** X10: what [parse_table] returns when it returns.  The table is the
    first table of the document and has a header section; the map is the
    one built from the texts of its header cells; the roles id, front and
    back are all mapped; every mapped column (tags included) is the
    position of a header cell; and no two roles share a column. *)
Theorem parse_table_ok (soup : doc) (table : node) (cm : col_map) :
  parse_table soup = Ok (table, cm) ->
  find "table" soup = Some table
  /\ exists thead,
       find "thead" (node_children table) = Some thead
       /\ cm = build_col_map (read_headers thead)
       /\ (exists i f b,
             cm_id cm = Some i /\ cm_front cm = Some f /\ cm_back cm = Some b)
       /\ (forall col k, col_map_get col cm = Some k ->
             k < length (find_all "th" (node_children thead)))
       /\ (forall c1 c2 k, c1 <> c2 ->
             col_map_get c1 cm = Some k -> col_map_get c2 cm <> Some k).
Proof.
  unfold parse_table. intros H.
  destruct (find "table" soup) as [t|] eqn:Ht; [|discriminate].
  destruct (find "thead" (node_children t)) as [thead|] eqn:Hh; [|discriminate].
  destruct (check_required required (build_col_map (read_headers thead)))
    as [[]|e] eqn:Hc; cbn [bind] in H; [|discriminate].
  injection H as <- <-.
  assert (Hroles : forall col k,
            col_map_get col (build_col_map (read_headers thead)) = Some k ->
            In col roles).
  { intros col k. unfold col_map_get, roles. cbn [map In].
    destruct (str_eqb col "id") eqn:E1;
      [apply str_eqb_eq in E1; subst; auto|].
    destruct (str_eqb col "front") eqn:E2;
      [apply str_eqb_eq in E2; subst; auto|].
    destruct (str_eqb col "back") eqn:E3;
      [apply str_eqb_eq in E3; subst; auto|].
    destruct (str_eqb col "tags") eqn:E4;
      [apply str_eqb_eq in E4; subst; auto 6 | discriminate]. }
  split; [reflexivity|]. exists thead.
  split; [exact Hh|]. split; [reflexivity|]. split; [|split].
  - pose proof (check_required_ok _ _ Hc) as Hm.
    assert (Hi := Hm "id" ltac:(now left)).
    assert (Hf := Hm "front" ltac:(right; now left)).
    assert (Hb := Hm "back" ltac:(right; right; now left)).
    change (col_map_get "id" (build_col_map (read_headers thead)))
      with (cm_id (build_col_map (read_headers thead))) in Hi.
    change (col_map_get "front" (build_col_map (read_headers thead)))
      with (cm_front (build_col_map (read_headers thead))) in Hf.
    change (col_map_get "back" (build_col_map (read_headers thead)))
      with (cm_back (build_col_map (read_headers thead))) in Hb.
    destruct (cm_id _) as [i|]; [|congruence].
    destruct (cm_front _) as [f|]; [|congruence].
    destruct (cm_back _) as [b|]; [|congruence].
    now exists i, f, b.
  - intros col k E.
    pose proof (build_col_map_bound col _ k (Hroles col k E) E) as Hlt.
    unfold read_headers in Hlt. now rewrite length_map in Hlt.
  - intros c1 c2 k Hne E1 E2.
    exact (build_col_map_distinct c1 c2 _ k (Hroles c1 k E1) (Hroles c2 k E2)
             Hne E1 E2).
Qed.

(** X10 at the document of the test. *)
Lemma parse_table_ok_witness :
  parse_table smoke_doc = Ok (smoke_table, smoke_col_map)
  /\ find "table" smoke_doc = Some smoke_table.
Proof.
  assert (H : parse_table smoke_doc = Ok (smoke_table, smoke_col_map))
    by reflexivity.
  split; [exact H|].
  exact (proj1 (parse_table_ok smoke_doc smoke_table smoke_col_map H)).
Defined.

(** * The outcomes of the conversion *)

Lemma cell_at_mapped tds key cm k :
  col_map_get key cm = Some k ->
  cell_at tds key cm
  = if k <? length tds then Ok (nth k tds 0) else Raise IndexError.
Proof.
  intros H. unfold cell_at. rewrite H.
  destruct (k <? length tds) eqn:E.
  - apply Nat.ltb_lt in E. now rewrite nth_error_nth_default.
  - apply Nat.ltb_ge in E. apply nth_error_None in E. now rewrite E.
Qed.

Section RowFailure.

Variable html_parser : str -> list node.
Variable cm : col_map.
Hypothesis id_mapped : cm_id cm <> None.
Hypothesis front_mapped : cm_front cm <> None.
Hypothesis back_mapped : cm_back cm <> None.

Lemma convert_row_short d tr :
  row_cells d tr <> [] -> covers cm (row_cells d tr) = false ->
  convert_row html_parser cm d tr = Raise IndexError.
Proof.
  intros Hne Hc. unfold convert_row. fold (row_cells d tr).
  destruct (row_cells d tr) as [|td tds] eqn:E; [contradiction|].
  unfold covers, has_cell in Hc.
  destruct (cm_id cm) as [i|] eqn:Ei; [|contradiction].
  destruct (cm_front cm) as [f|] eqn:Ef; [|contradiction].
  destruct (cm_back cm) as [b|] eqn:Eb; [|contradiction].
  rewrite (cell_at_mapped (td :: tds) "id" cm i Ei).
  destruct (i <? length (td :: tds)); [|reflexivity]. cbn [bind].
  rewrite (cell_at_mapped (td :: tds) "front" cm f Ef).
  destruct (f <? length (td :: tds)); [|reflexivity]. cbn [bind].
  rewrite (cell_at_mapped (td :: tds) "back" cm b Eb).
  destruct (b <? length (td :: tds)); [|reflexivity]. cbn [bind].
  destruct (cm_tags cm) as [k|] eqn:Et; [|discriminate].
  rewrite (cell_at_mapped (td :: tds) "tags" cm k Et).
  cbn [andb] in Hc. now rewrite Hc.
Qed.

Lemma convert_rows_outcome trs : forall d,
  (rows_ready html_parser cm d trs
   /\ exists d' rs,
        convert_rows html_parser cm d trs = Ok (d', rs)
        /\ rows_run html_parser cm d trs d' rs)
  \/ (~ rows_ready html_parser cm d trs
      /\ convert_rows html_parser cm d trs = Raise IndexError).
Proof.
  induction trs as [|tr trs IH]; intros d.
  - left. split; [exact I|]. exists d, []. split; [reflexivity | constructor].
  - cbn [rows_ready convert_rows].
    destruct (row_cells d tr) as [|td tds] eqn:E.
    + rewrite (convert_row_skip html_parser cm d tr E). cbn [bind fst snd].
      destruct (IH d) as [[Hr [d' [rs [Hrun Hrel]]]] | [Hn Hrun]].
      * left. split; [now left|]. exists d', rs. rewrite Hrun.
        split; [reflexivity | now apply run_skip].
      * right. split; [|now rewrite Hrun].
        intros [[_ Hr] | [Hne _]]; [now apply Hn | now apply Hne].
    + assert (Hne : row_cells d tr <> []) by (rewrite E; discriminate).
      rewrite <- E. destruct (covers cm (row_cells d tr)) eqn:Hc.
      * rewrite (convert_row_emit html_parser cm d tr Hne Hc).
        cbn [bind fst snd].
        destruct (IH (row_after html_parser cm d (row_cells d tr)))
          as [[Hr [d' [rs [Hrun Hrel]]]] | [Hn Hrun]].
        -- left. split; [right; auto|].
           exists d', (row_record html_parser cm d (row_cells d tr) :: rs).
           rewrite Hrun. split; [reflexivity | now apply run_emit].
        -- right. split; [|now rewrite Hrun].
           intros [[He _] | [_ [_ Hr]]]; [now apply Hne | now apply Hn].
      * right. split.
        -- intros [[He _] | [_ [Ht _]]]; [now apply Hne | discriminate].
        -- now rewrite (convert_row_short d tr Hne Hc).
Qed.

End RowFailure.

Lemma record_rows_width rs :
  Forall (fun row : list str => length row = 4)
    (fieldnames :: map record_fields rs).
Proof.
  constructor; [reflexivity|].
  apply Forall_forall. intros row Hin.
  apply in_map_iff in Hin as [r [<- _]]. reflexivity.
Qed.

(** X11: the conversion has exactly three outcomes.  (1) It raises a
    RuntimeError whose message names something the document lacks (the
    table, its header or body section, a column for id, front or back).
    (2) The table is located and has a body, but some row, when the loop
    reaches it, has cells and lacks one for a mapped column: it raises
    IndexError.  (3) Every row is without cells or has a cell for each
    mapped column: it raises nothing and writes the header row followed by
    the records of the rows, each row of the file having four fields.
    In both failing outcomes the output file is left as it was; a missing
    key (KeyError) is never raised. *)
Theorem convert_file_outcomes
  (html_parser : str -> list node) (soup : doc)
  (out : option (list (list str))) :
  (exists msg,
     violates soup msg
     /\ convert_file html_parser soup out = (Raise (RuntimeError msg), out))
  \/ (exists table cm tbody,
        parse_table soup = Ok (table, cm)
        /\ find "tbody" (node_children table) = Some tbody
        /\ ~ rows_ready html_parser cm soup
               (map node_oid (find_all "tr" (node_children tbody)))
        /\ convert_file html_parser soup out = (Raise IndexError, out))
  \/ (exists table cm tbody d' rs,
        parse_table soup = Ok (table, cm)
        /\ find "tbody" (node_children table) = Some tbody
        /\ rows_ready html_parser cm soup
             (map node_oid (find_all "tr" (node_children tbody)))
        /\ rows_run html_parser cm soup
             (map node_oid (find_all "tr" (node_children tbody))) d' rs
        /\ convert_file html_parser soup out
           = (Ok tt, Some (fieldnames :: map record_fields rs))
        /\ Forall (fun row : list str => length row = 4)
             (fieldnames :: map record_fields rs)).
Proof.
  unfold convert_file.
  destruct (parse_table soup) as [[table cm]|e] eqn:Hp.
  2:{ left. unfold parse_table in Hp.
      destruct (find "table" soup) as [table|] eqn:Ht.
      2:{ injection Hp as <-. exists no_table_msg. split; [|reflexivity].
          apply no_table. now apply find_none_iff. }
      destruct (find "thead" (node_children table)) as [thead|] eqn:Hh.
      2:{ injection Hp as <-. exists no_thead_msg. split; [|reflexivity].
          apply (no_thead soup table); [assumption | now apply find_none_iff]. }
      destruct (check_required required (build_col_map (read_headers thead)))
        as [[]|e'] eqn:Hc; cbn [bind] in Hp; [discriminate|].
      injection Hp as <-.
      apply check_required_raise in Hc as [col [Hin [Hn ->]]].
      exists (missing_column_msg col). split; [|reflexivity].
      apply (no_column soup table thead col);
        [assumption | assumption | now apply in_required
        | now apply build_col_map_get]. }
  destruct (find "tbody" (node_children table)) as [tbody|] eqn:Hb.
  2:{ left. exists no_tbody_msg. split; [|reflexivity].
      unfold parse_table in Hp.
      destruct (find "table" soup) as [t|] eqn:Ht; [|discriminate].
      destruct (find "thead" (node_children t)) as [thead|]; [|discriminate].
      destruct (check_required required (build_col_map (read_headers thead)))
        as [[]|e']; cbn [bind] in Hp; [|discriminate].
      injection Hp as -> _.
      apply (no_tbody soup table); [exact Ht | now apply find_none_iff]. }
  assert (Hm : cm_id cm <> None /\ cm_front cm <> None /\ cm_back cm <> None).
  { unfold parse_table in Hp.
    destruct (find "table" soup) as [t|]; [|discriminate].
    destruct (find "thead" (node_children t)) as [thead|]; [|discriminate].
    destruct (check_required required (build_col_map (read_headers thead)))
      as [[]|e'] eqn:Hc; cbn [bind] in Hp; [|discriminate].
    injection Hp as _ <-.
    pose proof (check_required_ok _ _ Hc) as Hm.
    split; [|split].
    - exact (Hm "id" ltac:(now left)).
    - exact (Hm "front" ltac:(right; now left)).
    - exact (Hm "back" ltac:(right; right; now left)). }
  destruct Hm as [Hi [Hf Hk]].
  destruct (convert_rows_outcome html_parser cm Hi Hf Hk
              (map node_oid (find_all "tr" (node_children tbody))) soup)
    as [[Hr [d' [rs [Hrun Hrel]]]] | [Hn Hrun]].
  - right. right. exists table, cm, tbody, d', rs. rewrite Hrun.
    repeat split; auto. apply record_rows_width.
  - right. left. exists table, cm, tbody. rewrite Hrun. auto.
Qed.

(** * Line breaks in the text stage *)

(** X12: the string that rich sanitization returns holds no newline
    character, whatever the cell and whatever the parser gives for the
    fenced text: every line break in it is written [<br/>]. *)
Theorem sanitize_rich_single_line
  (html_parser : str -> list node) (cell : nat) (d : doc) :
  ~ In newline (fst (sanitize_inline_html html_parser cell false d)).
Proof.
  unfold sanitize_inline_html, sanitize_text, replace. cbn [fst].
  apply replace_from_char_gone.
  intros H. repeat (destruct H as [H|H]; [discriminate H|]). exact H.
Qed.

(** X13: on a serialized cell with no newline and no backtick the text
    stage only normalizes the spellings of the line break: the detour
    through newlines gives every [<br/>] back, and nothing is taken for a
    fence. *)
Theorem sanitize_text_without_fences
  (html_parser : str -> list node) (decoded : str) :
  ~ In newline decoded -> ~ In "`"%char decoded ->
  sanitize_text html_parser decoded
  = replace "<br />" "<br/>" (replace "<br>" "<br/>" decoded).
Proof.
  intros Hnl Hbt. unfold sanitize_text.
  set (h := replace "<br />" "<br/>" (replace "<br>" "<br/>" decoded)).
  assert (Hin : forall c, In c h ->
            In c decoded \/ In c (list_ascii_of_string "<br/>")).
  { intros c H. unfold h, replace in H.
    apply replace_from_In in H as [H|H]; [|now right].
    apply replace_from_In in H as [H|H]; [now left | now right]. }
  assert (Hh : ~ In newline h).
  { intros H. apply Hin in H as [H|H]; [now apply Hnl|].
    repeat (destruct H as [H|H]; [discriminate H|]). exact H. }
  assert (Ht : ~ In "`"%char (replace "<br/>" [newline] h)).
  { intros H. unfold replace in H.
    apply replace_from_In in H as [H|H].
    - apply Hin in H as [H|H]; [now apply Hbt|].
      repeat (destruct H as [H|H]; [discriminate H|]). exact H.
    - destruct H as [H|[]]. discriminate H. }
  rewrite fence_sub_no_close.
  - unfold replace. rewrite replace_char_back; [reflexivity | discriminate | exact Hh].
  - intros a r E. exfalso. apply Ht. rewrite E.
    apply in_or_app. right. apply in_or_app. left. now left.
Qed.

(** X13 at a cell with the two other spellings of the line break. *)
Lemma sanitize_text_without_fences_witness :
  sanitize_text plain_parser "a<br>b<br />c"
  = replace "<br />" "<br/>" (replace "<br>" "<br/>" "a<br>b<br />c").
Proof.
  apply (sanitize_text_without_fences plain_parser "a<br>b<br />c");
    intros H; repeat (destruct H as [H|H]; [discriminate H|]); exact H.
Defined.

(** * The characters of the tags *)

Lemma In_strip_by p s c : In c s -> p c = false -> In c (strip_by p s).
Proof.
  intros Hin Hc. apply in_split in Hin as [s1 [s2 ->]].
  unfold strip_by, lstrip_by.
  rewrite dropwhile_app_solid by assumption.
  rewrite rstrip_by_app_solid by assumption.
  apply in_or_app. right. now left.
Qed.

Lemma strip_by_incl p s c : In c (strip_by p s) -> In c s.
Proof.
  unfold strip_by, lstrip_by. intros H.
  destruct (rstrip_by_prefix p (dropwhile p s)) as [t Ht].
  destruct (dropwhile_suffix p s) as [u Hu].
  rewrite Hu. apply in_or_app. right.
  rewrite Ht. apply in_or_app. now left.
Qed.

Lemma strip_by_all p s : forallb p s = true -> strip_by p s = [].
Proof.
  intros H. unfold strip_by, lstrip_by.
  now rewrite (proj2 (takewhile_all p s H)).
Qed.

Lemma re_split_from_covers sep s : forall b c,
  In c s -> sep c = false ->
  exists t, In t (re_split_from sep b s) /\ In c t.
Proof.
  induction s as [|x s IH]; intros b c Hin Hc; [contradiction|].
  cbn [re_split_from]. destruct (sep x) eqn:Ex.
  - destruct Hin as [->|Hin]; [congruence|].
    destruct (IH true c Hin Hc) as [t [Ht Hct]].
    exists t. split; [|exact Hct].
    destruct b; [exact Ht | now right].
  - destruct Hin as [->|Hin].
    + destruct (re_split_from sep false s) as [|t ts].
      * exists [c]. split; now left.
      * exists (c :: t). split; now left.
    + destruct (IH false c Hin Hc) as [t [Ht Hct]].
      destruct (re_split_from sep false s) as [|t0 ts]; [contradiction|].
      destruct Ht as [->|Ht].
      * exists (x :: t). split; [now left | now right].
      * exists t. split; [now right | exact Hct].
Qed.

Lemma re_split_from_incl sep s : forall b t c,
  In t (re_split_from sep b s) -> In c t -> In c s.
Proof.
  induction s as [|x s IH]; intros b t c Ht Hc.
  - destruct Ht as [<-|[]]. contradiction.
  - cbn [re_split_from] in Ht. destruct (sep x).
    + right. destruct b.
      * exact (IH true t c Ht Hc).
      * destruct Ht as [<-|Ht]; [contradiction|]. exact (IH true t c Ht Hc).
    + destruct (re_split_from sep false s) as [|t0 ts] eqn:E.
      * destruct Ht as [<-|[]]. destruct Hc as [->|[]]. now left.
      * destruct Ht as [<-|Ht].
        -- destruct Hc as [->|Hc]; [now left|]. right.
           apply (IH false t0 c); [rewrite E; now left | exact Hc].
        -- right. apply (IH false t c); [rewrite E; now right | exact Hc].
Qed.

Lemma re_sub_ws_from_In s : forall b c,
  In c s -> py_isspace c = false -> In c (re_sub_ws_from b s).
Proof.
  induction s as [|x s IH]; intros b c Hin Hc; [contradiction|].
  cbn [re_sub_ws_from]. destruct (py_isspace x) eqn:Ex.
  - destruct Hin as [->|Hin]; [congruence|].
    destruct b; [now apply IH | right; now apply IH].
  - destruct Hin as [->|Hin]; [now left | right; now apply IH].
Qed.

Lemma re_sub_ws_from_incl s : forall b c,
  In c (re_sub_ws_from b s) -> c = "-"%char \/ In c s.
Proof.
  induction s as [|x s IH]; intros b c H; [contradiction|].
  cbn [re_sub_ws_from] in H. destruct (py_isspace x).
  - destruct b.
    + destruct (IH _ _ H); [now left | right; now right].
    + destruct H as [<-|H]; [now left|].
      destruct (IH _ _ H); [now left | right; now right].
  - destruct H as [<-|H]; [right; now left|].
    destruct (IH _ _ H); [now left | right; now right].
Qed.

Lemma In_join_intro sep l t c :
  In t l -> In c t -> In c (join sep l).
Proof.
  induction l as [|x l IH]; intros Ht Hc; [contradiction|].
  cbn [join]. destruct l as [|y l].
  - destruct Ht as [->|[]]. exact Hc.
  - destruct Ht as [->|Ht].
    + apply in_or_app. now left.
    + apply in_or_app. right. apply in_or_app. right. now apply IH.
Qed.

Lemma not_sep_not_stripped c :
  is_tag_sep c = false -> in_chars ",;" c = false.
Proof.
  unfold is_tag_sep, in_chars. cbn [list_ascii_of_string existsb].
  intros H. apply orb_false_iff in H as [H _].
  apply orb_false_iff in H as [H1 H2]. now rewrite H1, H2.
Qed.

Lemma is_nonempty_In (s : str) c : In c s -> is_nonempty s = true.
Proof. destruct s; [contradiction | reflexivity]. Qed.

Lemma tags_keep_solid raw c :
  In c raw -> py_isspace c = false -> is_tag_sep c = false ->
  In c (tags_of_text raw).
Proof.
  intros Hin Hsp Hsep. rewrite tags_of_text_eq.
  destruct (re_split_from_covers is_tag_sep raw false c Hin Hsep)
    as [piece [Hp Hc]].
  assert (H1 : In c (strip piece)) by now apply In_strip_by.
  assert (H2 : In c (normalize_tag (strip piece))).
  { unfold normalize_tag, strip_chars.
    apply In_strip_by; [|now apply not_sep_not_stripped].
    apply re_sub_ws_from_In; [|exact Hsp].
    now apply In_strip_by. }
  apply In_join_intro with (t := normalize_tag (strip piece)); [|exact H2].
  apply first_seen_In. unfold tag_candidates.
  apply filter_In. split; [|now apply (is_nonempty_In _ c)].
  apply in_map, in_map, filter_In. split; [exact Hp|].
  now apply (is_nonempty_In _ c).
Qed.

Lemma tags_from_raw raw c :
  In c (tags_of_text raw) ->
  c = " "%char \/ c = "-"%char \/ In c raw.
Proof.
  rewrite tags_of_text_eq. intros H.
  apply In_join in H as [[<-|[]] | [t [Ht Hc]]]; [now left|].
  right. apply (proj1 (first_seen_In _ _)) in Ht.
  unfold tag_candidates in Ht.
  apply filter_In in Ht as [Ht _].
  apply in_map_iff in Ht as [tok [<- Ht]].
  apply in_map_iff in Ht as [piece [<- Hp]].
  apply filter_In in Hp as [Hp _].
  unfold normalize_tag, strip_chars in Hc.
  apply strip_by_incl in Hc.
  apply re_sub_ws_from_incl in Hc as [->|Hc]; [now left|].
  right. apply strip_by_incl, strip_by_incl in Hc.
  now apply (re_split_from_incl is_tag_sep raw false piece c).
Qed.

Lemma filter_none {A} (f : A -> bool) l :
  (forall x, In x l -> f x = false) -> filter f l = [].
Proof.
  induction l as [|x l IH]; intros H; [reflexivity|].
  cbn [filter]. rewrite (H x) by now left.
  apply IH. intros y Hy. apply H. now right.
Qed.

Lemma tags_blank raw :
  (forall c, In c raw -> py_isspace c = true \/ is_tag_sep c = true) ->
  tags_of_text raw = [].
Proof.
  intros H. rewrite tags_of_text_eq. unfold tag_candidates.
  rewrite (filter_none (fun t => is_nonempty (strip t))); [reflexivity|].
  intros piece Hp. unfold strip. rewrite strip_by_all; [reflexivity|].
  apply forallb_forall. intros c Hc.
  pose proof (re_split_from_clean is_tag_sep raw false) as Hclean.
  rewrite Forall_forall in Hclean. specialize (Hclean piece Hp).
  rewrite Forall_forall in Hclean. specialize (Hclean c Hc).
  destruct (H c (re_split_from_incl is_tag_sep raw false piece c Hp Hc));
    [assumption | congruence].
Qed.

(** X14: the tag string is made of the characters of the cell.  Every
    character of the cell text that is neither white space nor a
    separator (comma, semicolon, newline) occurs in the tag string; every
    character of the tag string is a space, a dash or a character of the
    cell text; and the tag string is empty exactly when the cell text
    holds only white space and separators. *)
Theorem tags_from_cell_characters (cell : nat) (d : doc) :
  let raw := get_text " " (contents_of cell d) in
  (forall c, In c raw -> py_isspace c = false -> is_tag_sep c = false ->
     In c (tags_from_cell cell d))
  /\ (forall c, In c (tags_from_cell cell d) ->
        c = " "%char \/ c = "-"%char \/ In c raw)
  /\ (tags_from_cell cell d = []
      <-> forall c, In c raw -> py_isspace c = true \/ is_tag_sep c = true).
Proof.
  cbn zeta. unfold tags_from_cell.
  set (raw := get_text " " (contents_of cell d)).
  split; [intros c; apply tags_keep_solid|].
  split; [intros c; apply tags_from_raw|].
  split; [|apply tags_blank].
  intros He c Hc.
  destruct (py_isspace c) eqn:E1; [now left|].
  destruct (is_tag_sep c) eqn:E2; [now right|].
  pose proof (tags_keep_solid raw c Hc E1 E2) as Hin.
  rewrite He in Hin. contradiction.
Qed.

(** * The elements that rich sanitization keeps *)

Lemma fst_loops_body nm a : fst (loops_body nm a) = renamed nm.
Proof.
  rewrite loops_body_eq. unfold renamed.
  destruct (str_eqb nm "mark"); [reflexivity|].
  destruct (str_eqb nm "span"); [reflexivity|].
  now destruct (str_eqb nm "a").
Qed.

Lemma kept_of_forest (cs : list node) :
  Forall (fun n =>
    map (fun e => (node_oid e, node_name e)) (descendants (sanitize_tree [n]))
    = map (fun e => (node_oid e, renamed (node_name e)))
        (filter survives (elements_of n))) cs ->
  map (fun e => (node_oid e, node_name e)) (descendants (sanitize_tree cs))
  = map (fun e => (node_oid e, renamed (node_name e)))
      (filter survives (descendants cs)).
Proof.
  induction 1 as [|n cs Hn _ IH]; [reflexivity|].
  rewrite sanitize_tree_cons, descendants_app, descendants_cons.
  rewrite filter_app, !map_app. now rewrite Hn, IH.
Qed.

Lemma kept_of_node (n : node) :
  map (fun e => (node_oid e, node_name e)) (descendants (sanitize_tree [n]))
  = map (fun e => (node_oid e, renamed (node_name e)))
      (filter survives (elements_of n)).
Proof.
  induction n as [s | i nm a kids IH] using node_forest_ind; [reflexivity|].
  apply kept_of_forest in IH. rewrite sanitize_tree_elem, fst_loops_body.
  change (elements_of (Elem i nm a kids))
    with (Elem i nm a kids :: descendants kids).
  cbn [filter]. unfold survives at 1. cbn [node_name].
  destruct (mem (renamed nm) ALLOWED_TAGS); [|exact IH].
  rewrite descendants_single. cbn [map node_oid node_name]. now rewrite IH.
Qed.

(** X15: rich sanitization of the tree loses no allowed element and keeps
    the order.  The elements left under the cell are exactly the elements
    of the cell whose name is allowed, a [mark] counting as the [span] it
    becomes; they come in document order, each once, under the same
    identity, and with their name ([span] for a [mark]). *)
Theorem sanitize_tree_keeps_allowed (cs : list node) :
  map (fun e => (node_oid e, node_name e)) (descendants (sanitize_tree cs))
  = map (fun e => (node_oid e, renamed (node_name e)))
      (filter survives (descendants cs)).
Proof.
  apply kept_of_forest, Forall_forall. intros n _. apply kept_of_node.
Qed.

(** * The color table *)

(** X16: every entry of the color table can be reached.  For each key
    and value of [CSS_COLOR_MAP], the tokens [highlight-<key>] and
    [block-color-<key>] are recognized with that key, the lookup of the key
    gives that value (no key comes twice, none ends in [_background]), and
    the token contributes the declaration [color:<value>]. *)
Theorem color_table_reachable (k v : str) :
  In (k, v) CSS_COLOR_MAP ->
  color_class_key ("highlight-" ++ k) = Some k
  /\ color_class_key ("block-color-" ++ k) = Some k
  /\ color_of k CSS_COLOR_MAP = Some v
  /\ class_style ("highlight-" ++ k) = Some ("color:" ++ v)
  /\ class_style ("block-color-" ++ k) = Some ("color:" ++ v).
Proof.
  unfold CSS_COLOR_MAP. cbn [map In fst snd].
  intros H.
  repeat (destruct H as [H|H];
          [injection H as <- <-; repeat split; reflexivity|]).
  contradiction.
Qed.

(** X16 at the entry for pink. *)
Lemma color_table_reachable_witness :
  In (list_ascii_of_string "pink", list_ascii_of_string "deeppink")
    CSS_COLOR_MAP
  /\ class_style "highlight-pink" = Some (list_ascii_of_string "color:deeppink").
Proof.
  assert (H : In (list_ascii_of_string "pink",
                  list_ascii_of_string "deeppink") CSS_COLOR_MAP).
  { unfold CSS_COLOR_MAP. cbn [map In fst snd].
    do 8 right. now left. }
  split; [exact H|].
  exact (proj1 (proj2 (proj2 (proj2
           (color_table_reachable "pink" "deeppink" H))))).
Defined.
